(** * protoc-gen-twirp_ruby: the generator of [main.go], embedded in Rocq

    The development follows [src/protoc-gen-twirp_ruby/main.go].

    - Go strings are byte strings: [string], one [ascii] per byte.
    - [rune] and [int] values are [Z].
    - a [*descriptor.FileDescriptorProto] is the position of the file in the
      request; two pointers are the same file when the positions are equal,
      which is what Go's [==] on pointers and the pointer-keyed map
      [fileToGoPackageName] observe.
    - a [panic] is the [Panic] result of the error monad.
    - the parts of Go's standard library the generator calls ([strings],
      [path/filepath], [unicode/utf8], [unicode]) are modelled after their
      documented behaviour; the Unicode case tables are a parameter. *)

From Stdlib Require Import ZArith Ascii List Lia Bool.
From stdpp Require Import base gmap strings list.

Set Default Proof Using "Type".

(** ** Bytes *)

Definition byteZ (c : ascii) : Z := Z.of_N (N_of_ascii c).

(** Go's conversion [byte(x)]: the low eight bits. *)
Definition Zbyte (z : Z) : ascii := ascii_of_N (Z.to_N (z mod 256)).

Definition byte_le (a b : ascii) : bool := (byteZ a <=? byteZ b)%Z.
Definition byte_in (lo hi : Z) (c : ascii) : bool :=
  ((lo <=? byteZ c) && (byteZ c <=? hi))%Z.
Definition byte_xor (a b : ascii) : ascii := Zbyte (Z.lxor (byteZ a) (byteZ b)).

(** The largest [int] (64 bits). *)
Definition maxInt : Z := 9223372036854775807.

(** ** Package [strings] *)

Module strings.

Fixpoint HasPrefix (s prefix : string) : bool :=
  match prefix, s with
  | EmptyString, _ => true
  | String p prefix', String c s' => Ascii.eqb c p && HasPrefix s' prefix'
  | String _ _, EmptyString => false
  end.

Fixpoint drop (n : nat) (s : string) : string :=
  match n, s with
  | O, _ => s
  | S n', String _ s' => drop n' s'
  | S _, EmptyString => EmptyString
  end.

Fixpoint take (n : nat) (s : string) : string :=
  match n, s with
  | O, _ => EmptyString
  | S n', String c s' => String c (take n' s')
  | S _, EmptyString => EmptyString
  end.

(** [Split s sep] for a non-empty [sep], which is how the generator calls
    it: cut at each occurrence of [sep], scanning from the left; [skip]
    bytes of a separator just matched are passed over, [cur] is the piece
    read so far. *)
Fixpoint splitFrom (sep : string) (skip : nat) (cur : string) (s : string)
  : list string :=
  match s with
  | EmptyString => [cur]
  | String c rest =>
      match skip with
      | S k => splitFrom sep k cur rest
      | O =>
          if HasPrefix s sep
          then cur :: splitFrom sep (String.length sep - 1) EmptyString rest
          else splitFrom sep 0 (cur +:+ String c EmptyString) rest
      end
  end.

Definition Split (s sep : string) : list string := splitFrom sep 0 EmptyString s.

Fixpoint Join (elems : list string) (sep : string) : string :=
  match elems with
  | [] => EmptyString
  | [e] => e
  | e :: rest => e +:+ sep +:+ Join rest sep
  end.

(** [Repeat] panics on a negative count and when the length of the result
    overflows [int]; [None] stands for the panic. *)
Fixpoint repeat (s : string) (n : nat) : string :=
  match n with
  | O => EmptyString
  | S n' => s +:+ repeat s n'
  end.

Definition Repeat (s : string) (count : Z) : option string :=
  if (count <? 0)%Z then None
  else if (maxInt <? Z.of_nat (String.length s) * count)%Z then None
  else Some (repeat s (Z.to_nat count)).

Definition HasSuffix (s suffix : string) : bool :=
  (String.length suffix <=? String.length s)%nat
  && String.eqb (drop (String.length s - String.length suffix) s) suffix.

Definition TrimSuffix (s suffix : string) : string :=
  if HasSuffix s suffix
  then take (String.length s - String.length suffix) s
  else s.

End strings.

(** ** Package [unicode/utf8] *)

Module utf8.

Definition RuneError : Z := 0xFFFD.
Definition MaxRune : Z := 0x10FFFF.

Definition cont (c : ascii) : Z := Z.land (byteZ c) 0x3F.

(** [DecodeRuneInString]: the first rune of [s] and its width in bytes. An
    invalid or truncated encoding gives [(RuneError, 1)], the empty string
    [(RuneError, 0)]. *)
Definition DecodeRuneInString (s : string) : Z * nat :=
  match s with
  | EmptyString => (RuneError, 0)
  | String b0 s1 =>
      let x := byteZ b0 in
      if (x <? 0x80)%Z then (x, 1)
      else if byte_in 0xC2 0xDF b0 then
        match s1 with
        | String b1 _ =>
            if byte_in 0x80 0xBF b1
            then (Z.lor (Z.shiftl (Z.land x 0x1F) 6) (cont b1), 2)
            else (RuneError, 1)
        | _ => (RuneError, 1)
        end
      else if byte_in 0xE0 0xEF b0 then
        let lo := if (x =? 0xE0)%Z then 0xA0%Z else 0x80%Z in
        let hi := if (x =? 0xED)%Z then 0x9F%Z else 0xBF%Z in
        match s1 with
        | String b1 (String b2 _) =>
            if byte_in lo hi b1 && byte_in 0x80 0xBF b2
            then (Z.lor (Z.lor (Z.shiftl (Z.land x 0x0F) 12)
                               (Z.shiftl (cont b1) 6)) (cont b2), 3)
            else (RuneError, 1)
        | _ => (RuneError, 1)
        end
      else if byte_in 0xF0 0xF4 b0 then
        let lo := if (x =? 0xF0)%Z then 0x90%Z else 0x80%Z in
        let hi := if (x =? 0xF4)%Z then 0x8F%Z else 0xBF%Z in
        match s1 with
        | String b1 (String b2 (String b3 _)) =>
            if byte_in lo hi b1 && byte_in 0x80 0xBF b2 && byte_in 0x80 0xBF b3
            then (Z.lor (Z.lor (Z.lor (Z.shiftl (Z.land x 0x07) 18)
                                      (Z.shiftl (cont b1) 12))
                               (Z.shiftl (cont b2) 6)) (cont b3), 4)
            else (RuneError, 1)
        | _ => (RuneError, 1)
        end
      else (RuneError, 1)
  end.

(** [for i, r := range s]: the byte index and the rune of every iteration.
    [skip] counts the bytes of the current rune still to pass over. *)
Fixpoint rangeFrom (i : Z) (skip : nat) (s : string) : list (Z * Z) :=
  match s with
  | EmptyString => []
  | String _ rest =>
      match skip with
      | S k => rangeFrom (i + 1) k rest
      | O => (i, fst (DecodeRuneInString s))
               :: rangeFrom (i + 1) (snd (DecodeRuneInString s) - 1) rest
      end
  end.

Definition rangeString (s : string) : list (Z * Z) := rangeFrom 0 0 s.

Definition RuneCountInString (s : string) : nat := length (rangeString s).

Definition tail6 (z : Z) : ascii := Zbyte (Z.lor 0x80 (Z.land z 0x3F)).

(** [AppendRune] to an empty buffer, as [fmt]'s verb [%c] writes a rune:
    anything that is not a Unicode scalar value is written as U+FFFD. *)
Definition EncodeRune (r : Z) : string :=
  if ((0 <=? r) && (r <=? 0x7F))%Z then
    String (Zbyte r) EmptyString
  else if ((0 <=? r) && (r <=? 0x7FF))%Z then
    String (Zbyte (Z.lor 0xC0 (Z.shiftr r 6)))
      (String (tail6 r) EmptyString)
  else if ((0 <=? r) && ((r <? 0xD800) || ((0xDFFF <? r) && (r <=? 0xFFFF))))%Z then
    String (Zbyte (Z.lor 0xE0 (Z.shiftr r 12)))
      (String (tail6 (Z.shiftr r 6))
         (String (tail6 r) EmptyString))
  else if ((0xFFFF <? r) && (r <=? MaxRune))%Z then
    String (Zbyte (Z.lor 0xF0 (Z.shiftr r 18)))
      (String (tail6 (Z.shiftr r 12))
         (String (tail6 (Z.shiftr r 6))
            (String (tail6 r) EmptyString)))
  else
    String (Zbyte 0xEF) (String (Zbyte 0xBF) (String (Zbyte 0xBD) EmptyString)).

End utf8.

(** ** Package [unicode] *)

(** The case tables of package [unicode] beyond ASCII are data of the Go
    distribution; the generator is verified for any such tables. *)
Class UnicodeTables := {
  upperTable : Z -> bool;   (* membership in [unicode.Upper] above U+007F *)
  lowerMap : Z -> Z         (* [unicode.To(unicode.LowerCase, r)] above U+007F *)
}.

Module unicode.
Section Tables.
Context `{UnicodeTables}.

Definition IsUpper (r : Z) : bool :=
  if ((0 <=? r) && (r <=? 0x7F))%Z
  then ((byteZ "A" <=? r) && (r <=? byteZ "Z"))%Z
  else upperTable r.

Definition ToLower (r : Z) : Z :=
  if (r <=? 0x7F)%Z
  then if ((byteZ "A" <=? r) && (r <=? byteZ "Z"))%Z
       then (r + (byteZ "a" - byteZ "A"))%Z else r
  else lowerMap r.
End Tables.
End unicode.

(** An excerpt of the tables: the Latin-1 supplement and the Kelvin sign. *)
Definition latin1Tables : UnicodeTables := {|
  upperTable r :=
    (((0xC0 <=? r) && (r <=? 0xDE) && negb (r =? 0xD7)) || (r =? 0x212A))%Z;
  lowerMap r :=
    if ((0xC0 <=? r) && (r <=? 0xDE) && negb (r =? 0xD7))%Z then (r + 32)%Z
    else if (r =? 0x212A)%Z then 0x6B%Z else r
|}.

(** ** Identifier transformer: [snakeCase], [camelCase] *)

(** Is c an ASCII lower-case letter? *)
Definition isASCIILower (c : ascii) : bool := byte_le "a" c && byte_le c "z".

(** Is c an ASCII digit? *)
Definition isASCIIDigit (c : ascii) : bool := byte_le "0" c && byte_le c "9".

Section SnakeCase.
Context `{UnicodeTables}.

(** One iteration of the loop of [snakeCase] on the buffer. *)
Definition snakeStep (buf : string) (ir : Z * Z) : string :=
  let '(i, r) := ir in
  let buf := if unicode.IsUpper r && (0 <? i)%Z then buf +:+ "_" else buf in
  buf +:+ utf8.EncodeRune (unicode.ToLower r).

(** snakeCase converts a string from CamelCase to snake_case. *)
Definition snakeCase (s : string) : string :=
  fold_left snakeStep (utf8.rangeString s) EmptyString.
End SnakeCase.

(** [s[i+1]] exists and starts no new word: the test of lines 302 and 312,
    on the bytes after [s[i]]. *)
Definition nextLowerOrDigit (rest : string) : bool :=
  match rest with
  | String d _ => isASCIILower d || isASCIIDigit d
  | EmptyString => false
  end.

(** The loop of [camelCase] from index [i], on the suffix [s[i:]] (the loop
    reads [s[i]] and [s[i+1]] only). With [accept] the control is in the
    inner loop of line 312, whose test reads the head of the suffix; when that
    test fails the head is the next [c] of the outer loop. Without [accept]
    the head is the [c] of the outer loop (at the start and after the
    [continue]). *)
Fixpoint camelLoop (accept : bool) (s : string) : string :=
  match s with
  | EmptyString => EmptyString
  | String c rest =>
      if accept && (isASCIILower c || isASCIIDigit c) then
        String c (camelLoop true rest)
      else if Ascii.eqb c "_" && nextLowerOrDigit rest then
        camelLoop false rest
      else
        String (if isASCIILower c then byte_xor c " " else c)
               (camelLoop true rest)
  end.

(** camelCase converts a string from snake_case to CamelCased. *)
Definition camelCase (s : string) : string :=
  match s with
  | EmptyString => EmptyString
  | String c rest =>
      if Ascii.eqb c "_"
      then String "X" (camelLoop false rest)
      else camelLoop false s
  end.

(** splitRubyConstants converts a namespaced protobuf type to a list of names
    that can be used as Ruby constants. *)
Definition splitRubyConstants (protoPckgName : string) : list string :=
  if String.eqb protoPckgName EmptyString then []
  else map camelCase (strings.Split protoPckgName ".").


(** ** Package [path/filepath] (Unix) *)

Module filepath.

(** The loop of [Ext], with [n = i + 1]. *)
Fixpoint extLoop (path : string) (n : nat) : string :=
  match n with
  | O => EmptyString
  | S i =>
      match String.get i path with
      | Some c =>
          if Ascii.eqb c "/" then EmptyString
          else if Ascii.eqb c "." then strings.drop i path
          else extLoop path i
      | None => EmptyString
      end
  end.

Definition Ext (path : string) : string := extLoop path (String.length path).

(** Strip trailing slashes: [n] is the length of what is left of [path]. *)
Fixpoint stripSlashes (path : string) (n : nat) : string :=
  match n with
  | O => EmptyString
  | S i =>
      match String.get i path with
      | Some c => if Ascii.eqb c "/" then stripSlashes path i
                  else strings.take n path
      | None => strings.take n path
      end
  end.

(** Find the last element: [n = i + 1]. *)
Fixpoint lastElement (path : string) (n : nat) : string :=
  match n with
  | O => path
  | S i =>
      match String.get i path with
      | Some c => if Ascii.eqb c "/" then strings.drop n path
                  else lastElement path i
      | None => path
      end
  end.

Definition Base (path : string) : string :=
  if String.eqb path EmptyString then "."
  else
    let path := stripSlashes path (String.length path) in
    let path := lastElement path (String.length path) in
    if String.eqb path EmptyString then "/" else path.

End filepath.

Definition onlyBase (path : string) : string := filepath.Base path.

Definition noExtension (path : string) : string :=
  let ext := filepath.Ext path in
  strings.TrimSuffix path ext.

(** ** Descriptors *)

(** Optional protobuf fields are Go pointers; the generated getters return the
    zero value for a nil field. *)
Definition getString (field : option string) : string := default EmptyString field.

Record MethodDescriptorProto := {
  method_Name : option string;
  method_InputType : option string;
  method_OutputType : option string
}.

Record ServiceDescriptorProto := {
  service_Name : option string;
  service_Method : list MethodDescriptorProto
}.

Record FileOptions := { RubyPackage : option string }.

Record FileDescriptorProto := {
  file_Name : option string;
  file_Package : option string;
  file_Options : option FileOptions;
  file_Service : list ServiceDescriptorProto
}.

Record DescriptorProto := { message_Name : option string }.

Record CodeGeneratorRequest := {
  FileToGenerate : list string;
  ProtoFile : list FileDescriptorProto
}.

Record CodeGeneratorResponse_File := {
  resp_Name : string;
  resp_Content : string
}.

Record CodeGeneratorResponse := { resp_File : list CodeGeneratorResponse_File }.

(** A [*descriptor.FileDescriptorProto]: the files of a request are distinct
    objects, so a pointer to one of them is its position in
    [genReq.ProtoFile]. Pointer equality is equality of positions, whatever
    the contents of the files. *)
Definition fileptr := nat.

(** [for _, f := range files]: every pointer with the file it points to. *)
Fixpoint rangeFiles (i : fileptr) (files : list FileDescriptorProto)
  : list (fileptr * FileDescriptorProto) :=
  match files with
  | [] => []
  | f :: rest => (i, f) :: rangeFiles (S i) rest
  end.

(** ** Package [typemap] (interface)

    The registry is built by [typemap.New(genReq.ProtoFile)], which is not part
    of [main.go]: the generator is verified for any registry. *)
Record MessageDefinition := {
  Descriptor : DescriptorProto;
  File : fileptr
}.

Record Registry := {
  (* [reg.MessageDefinition(name)]; [None] is the nil result *)
  reg_MessageDefinition : string -> option MessageDefinition;
  (* [def.Lineage()] *)
  def_Lineage : MessageDefinition -> list MessageDefinition
}.

(** ** Panics and the output buffer *)

Inductive result (A : Type) : Type :=
| Ok (a : A)
| Panic (msg : string).
Arguments Ok {A} a.
Arguments Panic {A} msg.

Definition nilDeref : string :=
  "runtime error: invalid memory address or nil pointer dereference".

(** The [bytes.Buffer] of [generateRubyCode] is written by [print] only: it is
    kept as the list of the lines printed so far. *)
Definition Buffer := list string.

Definition newline : string := String "010" EmptyString.

Definition Buffer_String (b : Buffer) : string :=
  fold_right (fun line text => line +:+ newline +:+ text) EmptyString b.

(** Computations that write to the buffer and may panic. *)
Definition Emit (A : Type) : Type := Buffer -> result (A * Buffer).

Definition ret {A} (a : A) : Emit A := fun b => Ok (a, b).

Definition bind {A B} (m : Emit A) (k : A -> Emit B) : Emit B :=
  fun b => match m b with
           | Ok (a, b') => k a b'
           | Panic msg => Panic msg
           end.

Definition lift {A} (r : result A) : Emit A :=
  fun b => match r with
           | Ok a => Ok (a, b)
           | Panic msg => Panic msg
           end.

Declare Scope emit_scope.
Delimit Scope emit_scope with emit.
Notation "x <- m ;; k" := (bind m (fun x => k))
  (at level 100, m at next level, right associativity) : emit_scope.
Notation "m ;; k" := (bind m (fun _ => k))
  (at level 100, right associativity) : emit_scope.

(** [print(buf, tpl, args...)], with [line] the formatted template. *)
Definition print (line : string) : Emit unit := fun b => Ok (tt, b ++ [line]).

(** [for _, x := range xs { body }] *)
Fixpoint forEach {A} (xs : list A) (body : A -> Emit unit) : Emit unit :=
  match xs with
  | [] => ret tt
  | x :: rest => (body x ;; forEach rest body)%emit
  end.

(** [for i, x := range xs { body }] from index [i]. *)
Fixpoint forEachIndexed {A} (i : Z) (xs : list A) (body : Z -> A -> Emit unit)
  : Emit unit :=
  match xs with
  | [] => ret tt
  | x :: rest => (body i x ;; forEachIndexed (i + 1) rest body)%emit
  end.

(** A loop that updates one local variable. *)
Fixpoint forEachWith {A S} (xs : list A) (body : S -> A -> Emit S) (s : S)
  : Emit S :=
  match xs with
  | [] => ret s
  | x :: rest => (s' <- body s x ;; forEachWith rest body s')%emit
  end.

(** ** The generator *)

Record generator := {
  version : string;
  genReq : CodeGeneratorRequest;
  reg : Registry;
  genFiles : list fileptr;
  fileToGoPackageName : gmap fileptr string
}.

(** [Version] and [typemap.New(genReq.ProtoFile)] are given. *)
Definition newGenerator (Version : string) (typemap_New : Registry)
    (genReq : CodeGeneratorRequest) : generator := {|
  version := Version;
  genReq := genReq;
  fileToGoPackageName := ∅;
  reg := typemap_New;
  genFiles := []
|}.

Fixpoint fileDescSliceContains (slice : list fileptr) (f : fileptr) : bool :=
  match slice with
  | [] => false
  | sf :: rest => if Nat.eqb f sf then true else fileDescSliceContains rest f
  end.

(** The inner loop of lines 145-150 for one requested [name]. *)
Definition matchName (name : string) (genFiles : list fileptr)
    (pf : fileptr * FileDescriptorProto) : list fileptr :=
  if String.eqb (getString (file_Name (snd pf))) name
  then genFiles ++ [fst pf]
  else genFiles.

(** The loop of lines 153-159. *)
Definition recordPackage (genFiles : list fileptr) (m : gmap fileptr string)
    (pf : fileptr * FileDescriptorProto) : gmap fileptr string :=
  if fileDescSliceContains genFiles (fst pf)
  then <[fst pf := EmptyString]> m
  else <[fst pf := getString (file_Package (snd pf))]> m.

(** protoFilesToGenerate selects descriptor proto files that were explicitly
    listed on the command-line. *)
Definition findProtoFilesToGenerate (g : generator) : generator :=
  let files := rangeFiles 0 (ProtoFile (genReq g)) in
  let genFiles' :=
    fold_left (fun acc name => fold_left (matchName name) files acc)
              (FileToGenerate (genReq g)) (genFiles g) in
  {| version := version g;
     genReq := genReq g;
     reg := reg g;
     genFiles := genFiles';
     fileToGoPackageName :=
       fold_left (recordPackage genFiles') files (fileToGoPackageName g) |}.

(** [indentation.String], as [fmt] formats it under [%s]: a panic of the
    [String] method is caught by [fmt] and reported in the output, with the
    message of [strings.Repeat] (negative count, or overflow of the length). *)
Definition indentation_String (i : Z) : string :=
  match strings.Repeat "  " i with
  | Some s => s
  | None =>
      "%!s(PANIC=String method: "
      +:+ (if (i <? 0)%Z then "strings: negative Repeat count"
           else "strings: Repeat count causes overflow")
      +:+ ")"
  end.

Definition filePath (f : FileDescriptorProto) : result string :=
  match file_Name f with
  | Some name => Ok name
  | None => Panic nilDeref
  end.

(** The qualified name of a definition inside its file: lines 240-244. *)
Definition typeChain (r : Registry) (def : MessageDefinition) : string :=
  fold_left
    (fun name parent =>
       name +:+ (camelCase (getString (message_Name (Descriptor parent))) +:+ "::"))
    (def_Lineage r def) EmptyString
  +:+ camelCase (getString (message_Name (Descriptor def))).

(** The package recorded for a file; a missing key reads as the zero value. *)
Definition packageOf (g : generator) (f : fileptr) : string :=
  default EmptyString (fileToGoPackageName g !! f).

(** toRubyType converts a protobuf type reference to a Ruby constant. *)
Definition toRubyType (g : generator) (protoType : string) : result string :=
  match reg_MessageDefinition (reg g) protoType with
  | None => Panic ("could not find message for " +:+ protoType)
  | Some def =>
      let pkg := packageOf g (File def) in
      let prefix :=
        if negb (String.eqb pkg EmptyString)
        then strings.Join (splitRubyConstants pkg) "::" +:+ "::"
        else EmptyString in
      Ok (prefix +:+ typeChain (reg g) def)
  end.

Section Generate.
Context `{UnicodeTables}.

(** Lines 96-101. *)
Definition modulesOf (file : FileDescriptorProto) : list string :=
  match file_Options file with
  | Some {| RubyPackage := Some rubyPackage |} => strings.Split rubyPackage "::"
  | _ => splitRubyConstants (getString (file_Package file))
  end.

(** Lines 103-106: the body of the loop, then the loop. *)
Definition openModule (indent : Z) (m : string) : Emit Z :=
  (print (indentation_String indent +:+ "module " +:+ m) ;;
   ret (indent + 1)%Z)%emit.

Definition openModules (indent : Z) (modules : list string) : Emit Z :=
  forEachWith modules openModule indent.

(** Lines 134-137: the body of the loop, then the loop. *)
Definition closeModule (indent : Z) (_ : string) : Emit Z :=
  (let indent := (indent - 1)%Z in
   print (indentation_String indent +:+ "end") ;;
   ret indent)%emit.

Definition closeModules (indent : Z) (modules : list string) : Emit Z :=
  forEachWith modules closeModule indent.

(** Lines 116-122. *)
Definition emitMethod (g : generator) (indent : Z)
    (method : MethodDescriptorProto) : Emit unit :=
  (let rpcName := getString (method_Name method) in
   rpcInput <- lift (toRubyType g (getString (method_InputType method))) ;;
   rpcOutput <- lift (toRubyType g (getString (method_OutputType method))) ;;
   print (indentation_String indent +:+ "  rpc :" +:+ rpcName +:+ ", "
          +:+ rpcInput +:+ ", " +:+ rpcOutput +:+ ", :ruby_method => :"
          +:+ snakeCase rpcName))%emit.

(** Lines 108-132, the body for the service of index [i]. *)
Definition emitService (g : generator) (indent : Z) (pkgName : string)
    (nServices : Z) (i : Z) (service : ServiceDescriptorProto) : Emit unit :=
  (let svcName := getString (service_Name service) in
   print (indentation_String indent +:+ "class " +:+ camelCase svcName
          +:+ "Service < Twirp::Service") ;;
   (if negb (String.eqb pkgName EmptyString)
    then print (indentation_String indent +:+ "  package '" +:+ pkgName +:+ "'")
    else ret tt) ;;
   print (indentation_String indent +:+ "  service '" +:+ svcName +:+ "'") ;;
   forEach (service_Method service) (emitMethod g indent) ;;
   print (indentation_String indent +:+ "end") ;;
   print EmptyString ;;
   print (indentation_String indent +:+ "class " +:+ camelCase svcName
          +:+ "Client < Twirp::Client") ;;
   print (indentation_String indent +:+ "  client_for " +:+ camelCase svcName
          +:+ "Service") ;;
   print (indentation_String indent +:+ "end") ;;
   (if (i <? nServices - 1)%Z then print EmptyString else ret tt))%emit.

(** The body of [generateRubyCode] on its buffer. *)
Definition emitRubyCode (g : generator) (file : FileDescriptorProto)
    (pbFileRelativePath : string) : Emit Z :=
  (print ("# Code generated by protoc-gen-twirp_ruby " +:+ version g
          +:+ ", DO NOT EDIT.") ;;
   print "require 'twirp'" ;;
   print ("require_relative '" +:+ pbFileRelativePath +:+ "'") ;;
   print EmptyString ;;
   let indent := 0%Z in
   let pkgName := getString (file_Package file) in
   let modules := modulesOf file in
   indent <- openModules indent modules ;;
   forEachIndexed 0 (file_Service file)
     (emitService g indent pkgName (Z.of_nat (length (file_Service file)))) ;;
   closeModules indent modules)%emit.

Definition generateRubyCode (g : generator) (file : FileDescriptorProto)
    (pbFileRelativePath : string) : result string :=
  match emitRubyCode g file pbFileRelativePath [] with
  | Ok (_, b) => Ok (Buffer_String b)
  | Panic msg => Panic msg
  end.

(** The body of the loop of [Generate], lines 71-81. *)
Definition generateFile (g : generator) (resp : CodeGeneratorResponse)
    (f : fileptr) : result CodeGeneratorResponse :=
  match ProtoFile (genReq g) !! f with
  | None => Panic nilDeref
  | Some file =>
      match filePath file with
      | Panic msg => Panic msg
      | Ok path =>
          let twirpFileName := noExtension path +:+ "_twirp.rb" in
          let pbFileRelativePath := noExtension (onlyBase path) +:+ "_pb.rb" in
          match generateRubyCode g file pbFileRelativePath with
          | Panic msg => Panic msg
          | Ok rubyCode =>
              let respFile := {| resp_Name := twirpFileName;
                                 resp_Content := rubyCode |} in
              Ok {| resp_File := resp_File resp ++ [respFile] |}
          end
      end
  end.

Fixpoint generateFiles (g : generator) (resp : CodeGeneratorResponse)
    (fs : list fileptr) : result CodeGeneratorResponse :=
  match fs with
  | [] => Ok resp
  | f :: rest =>
      match generateFile g resp f with
      | Ok resp' => generateFiles g resp' rest
      | Panic msg => Panic msg
      end
  end.

Definition Generate (g : generator) : result CodeGeneratorResponse :=
  let resp := {| resp_File := [] |} in
  let g := findProtoFilesToGenerate g in
  generateFiles g resp (genFiles g).

End Generate.

(** ** Vocabulary of the properties *)

(** *** Identifiers over ASCII *)

Definition isASCII (c : ascii) : bool := (byteZ c <? 0x80)%Z.
Definition isASCIIUpper (c : ascii) : bool := byte_le "A" c && byte_le c "Z".
Definition isSeparator (c : ascii) : bool := Ascii.eqb c "_".

(** Letters, digits and the separator. *)
Definition isIdentByte (c : ascii) : bool :=
  isASCIILower c || isASCIIUpper c || isASCIIDigit c || isSeparator c.

Fixpoint allBytes (P : ascii -> bool) (s : string) : bool :=
  match s with
  | EmptyString => true
  | String c rest => P c && allBytes P rest
  end.

Definition isIdentifier (s : string) : bool := allBytes isIdentByte s.

Definition startsWithDigit (s : string) : bool :=
  match s with
  | String d _ => isASCIIDigit d
  | EmptyString => false
  end.

(** Some separator of [s] is immediately followed by a digit. *)
Fixpoint hasSeparatorDigit (s : string) : bool :=
  match s with
  | EmptyString => false
  | String c rest => (isSeparator c && startsWithDigit rest) || hasSeparatorDigit rest
  end.

(** [snakeCase] on ASCII strings, byte by byte. *)
Definition asciiToLower (c : ascii) : ascii :=
  if isASCIIUpper c then Zbyte (byteZ c + 32) else c.

Fixpoint snakeTail (s : string) : string :=
  match s with
  | EmptyString => EmptyString
  | String c rest =>
      if isASCIIUpper c
      then String "_" (String (asciiToLower c) (snakeTail rest))
      else String (asciiToLower c) (snakeTail rest)
  end.

Definition snakeAscii (s : string) : string :=
  match s with
  | EmptyString => EmptyString
  | String c rest => String (asciiToLower c) (snakeTail rest)
  end.

(** The bytes of a snake-cased identifier. *)
Definition isLowByte (c : ascii) : bool :=
  isASCIILower c || isASCIIDigit c || isSeparator c.

Definition startsWithLower (s : string) : bool :=
  match s with
  | String d _ => isASCIILower d
  | EmptyString => false
  end.

(** *** [snakeCase] in the words of its specification *)

Section SnakeSpec.
Context `{UnicodeTables}.

Definition separator : Z := byteZ "_".

(** The code points of a string, as [range] yields them. *)
Definition runes (s : string) : list Z := map snd (utf8.rangeString s).

(** The string that holds the given code points. *)
Definition encodeRunes (rs : list Z) : string :=
  fold_right (fun r text => utf8.EncodeRune r +:+ text) EmptyString rs.

(** A code point that is not the first one: a separator is inserted before
    an uppercase letter; the code point is folded to lower case. *)
Fixpoint snakeRest (rs : list Z) : list Z :=
  match rs with
  | [] => []
  | r :: rest =>
      if unicode.IsUpper r
      then separator :: unicode.ToLower r :: snakeRest rest
      else unicode.ToLower r :: snakeRest rest
  end.

(** Specification: scan the code points from left to right; the first one is
    folded to lower case only. *)
Definition to_snake_case_spec (rs : list Z) : list Z :=
  match rs with
  | [] => []
  | r :: rest => unicode.ToLower r :: snakeRest rest
  end.
End SnakeSpec.

(** *** Well-formed UTF-8 prefixes, as [DecodeRuneInString] tests them *)

Definition lead2 (b0 : ascii) : bool :=
  negb (byteZ b0 <? 0x80)%Z && byte_in 0xC2 0xDF b0.

Definition lead3 (b0 b1 : ascii) : bool :=
  negb (byteZ b0 <? 0x80)%Z && negb (byte_in 0xC2 0xDF b0) && byte_in 0xE0 0xEF b0
  && byte_in (if (byteZ b0 =? 0xE0)%Z then 0xA0%Z else 0x80%Z)
             (if (byteZ b0 =? 0xED)%Z then 0x9F%Z else 0xBF%Z) b1.

Definition lead4 (b0 b1 : ascii) : bool :=
  negb (byteZ b0 <? 0x80)%Z && negb (byte_in 0xC2 0xDF b0)
  && negb (byte_in 0xE0 0xEF b0) && byte_in 0xF0 0xF4 b0
  && byte_in (if (byteZ b0 =? 0xF0)%Z then 0x90%Z else 0x80%Z)
             (if (byteZ b0 =? 0xF4)%Z then 0x8F%Z else 0xBF%Z) b1.

(** *** File selection *)

(** The files of the request called [name], in the order of the request. *)
Definition filesNamed (name : string)
    (files : list (fileptr * FileDescriptorProto)) : list fileptr :=
  map fst
    (List.filter (fun pf => String.eqb (getString (file_Name (snd pf))) name) files).

(** The generation role of a file is the test of line 154. *)
Inductive role : Type := generate | dependency_only.

Definition generationRole (g : generator) (f : fileptr) : role :=
  if fileDescSliceContains (genFiles g) f then generate else dependency_only.

(** The namespace prefix of a package: lines 236-238. *)
Definition namespacePrefix (pkg : string) : string :=
  strings.Join (map camelCase (strings.Split pkg ".")) "::" +:+ "::".

(** *** A sample request *)

Module Sample.

Definition sayHello : MethodDescriptorProto := {|
  method_Name := Some "SayHello";
  method_InputType := Some ".hello.world.HelloRequest";
  method_OutputType := Some ".foo.bar.Outer.reply"
|}.

Definition greeter : ServiceDescriptorProto := {|
  service_Name := Some "Greeter";
  service_Method := [sayHello]
|}.

Definition hello : FileDescriptorProto := {|
  file_Name := Some "hello_world/service.proto";
  file_Package := Some "hello.world";
  file_Options := None;
  file_Service := [greeter]
|}.

Definition dep : FileDescriptorProto := {|
  file_Name := Some "foo/bar.proto";
  file_Package := Some "foo.bar";
  file_Options := None;
  file_Service := []
|}.

(** A dependency without a package. *)
Definition bare : FileDescriptorProto := {|
  file_Name := Some "bare.proto";
  file_Package := None;
  file_Options := None;
  file_Service := []
|}.

Definition helloRequest : MessageDefinition :=
  {| Descriptor := {| message_Name := Some "HelloRequest" |}; File := 0 |}.
Definition outer : MessageDefinition :=
  {| Descriptor := {| message_Name := Some "Outer" |}; File := 1 |}.
Definition reply : MessageDefinition :=
  {| Descriptor := {| message_Name := Some "reply" |}; File := 1 |}.
Definition plain : MessageDefinition :=
  {| Descriptor := {| message_Name := Some "Plain" |}; File := 2 |}.

Definition registry : Registry := {|
  reg_MessageDefinition name :=
    if String.eqb name ".hello.world.HelloRequest" then Some helloRequest
    else if String.eqb name ".foo.bar.Outer" then Some outer
    else if String.eqb name ".foo.bar.Outer.reply" then Some reply
    else if String.eqb name ".Plain" then Some plain
    else None;
  def_Lineage def :=
    if String.eqb (getString (message_Name (Descriptor def))) "reply"
    then [outer] else []
|}.

Definition request : CodeGeneratorRequest := {|
  FileToGenerate := ["hello_world/service.proto"];
  ProtoFile := [hello; dep; bare]
|}.

Definition gen : generator := newGenerator "v1.0.0" registry request.

(** The same file requested twice. *)
Definition requestTwice : CodeGeneratorRequest := {|
  FileToGenerate := ["foo/bar.proto"; "foo/bar.proto"];
  ProtoFile := [hello; dep; bare]
|}.

(** A method whose output type is not registered. *)
Definition broken : FileDescriptorProto := {|
  file_Name := Some "broken.proto";
  file_Package := Some "broken";
  file_Options := None;
  file_Service :=
    [ {| service_Name := Some "Broken";
         service_Method :=
           [ {| method_Name := Some "Call";
                method_InputType := Some ".hello.world.HelloRequest";
                method_OutputType := Some ".missing.Type" |} ] |} ]
|}.

Definition requestBroken : CodeGeneratorRequest := {|
  FileToGenerate := ["hello_world/service.proto"; "broken.proto"];
  ProtoFile := [hello; dep; broken]
|}.

(** The lines printed for [hello]. *)
Definition helloLines : list string :=
  Eval vm_compute in
    match @emitRubyCode latin1Tables (findProtoFilesToGenerate gen) hello
                        "service_pb.rb" [] with
    | Ok (_, b) => b
    | Panic _ => []
    end.

Definition helloResponse : CodeGeneratorResponse :=
  Eval vm_compute in
    match @Generate latin1Tables gen with
    | Ok resp => resp
    | Panic _ => {| resp_File := [] |}
    end.

End Sample.

(** *** What the loops of [generateRubyCode] print *)

(** The outcome of a computation that only prints the lines [r]. *)
Definition printed (r : result (list string)) : Emit unit :=
  fun b => match r with
           | Ok lines => Ok (tt, b ++ lines)
           | Panic msg => Panic msg
           end.

(** The lines of the items of a list, up to the first panic. *)
Fixpoint collect {A} (f : A -> result (list string)) (xs : list A)
  : result (list string) :=
  match xs with
  | [] => Ok []
  | x :: rest =>
      match f x with
      | Panic msg => Panic msg
      | Ok lines =>
          match collect f rest with
          | Panic msg => Panic msg
          | Ok lines' => Ok (lines ++ lines')
          end
      end
  end.

Fixpoint collectIndexed {A} (i : Z) (f : Z -> A -> result (list string))
    (xs : list A) : result (list string) :=
  match xs with
  | [] => Ok []
  | x :: rest =>
      match f i x with
      | Panic msg => Panic msg
      | Ok lines =>
          match collectIndexed (i + 1) f rest with
          | Panic msg => Panic msg
          | Ok lines' => Ok (lines ++ lines')
          end
      end
  end.

Definition headerLines (version pbFileRelativePath : string) : list string :=
  [ "# Code generated by protoc-gen-twirp_ruby " +:+ version +:+ ", DO NOT EDIT.";
    "require 'twirp'";
    "require_relative '" +:+ pbFileRelativePath +:+ "'";
    EmptyString ].

Fixpoint openLines (indent : Z) (modules : list string) : list string :=
  match modules with
  | [] => []
  | m :: rest =>
      (indentation_String indent +:+ "module " +:+ m) :: openLines (indent + 1) rest
  end.

Fixpoint closeLines (indent : Z) (modules : list string) : list string :=
  match modules with
  | [] => []
  | _ :: rest =>
      (indentation_String (indent - 1) +:+ "end") :: closeLines (indent - 1) rest
  end.

Section Lines.
Context `{UnicodeTables}.

(** The RPC-registration entry of a method. *)
Definition rpcLine (indent : Z) (rpcName rpcInput rpcOutput : string) : string :=
  indentation_String indent +:+ "  rpc :" +:+ rpcName +:+ ", "
  +:+ rpcInput +:+ ", " +:+ rpcOutput +:+ ", :ruby_method => :"
  +:+ snakeCase rpcName.

Definition methodLines (g : generator) (indent : Z)
    (method : MethodDescriptorProto) : result (list string) :=
  match toRubyType g (getString (method_InputType method)) with
  | Panic msg => Panic msg
  | Ok rpcInput =>
      match toRubyType g (getString (method_OutputType method)) with
      | Panic msg => Panic msg
      | Ok rpcOutput =>
          Ok [rpcLine indent (getString (method_Name method)) rpcInput rpcOutput]
      end
  end.

Definition serviceHead (indent : Z) (pkgName svcName : string) : list string :=
  [indentation_String indent +:+ "class " +:+ camelCase svcName
   +:+ "Service < Twirp::Service"]
  ++ (if negb (String.eqb pkgName EmptyString)
      then [indentation_String indent +:+ "  package '" +:+ pkgName +:+ "'"]
      else [])
  ++ [indentation_String indent +:+ "  service '" +:+ svcName +:+ "'"].

Definition serviceTail (indent : Z) (svcName : string) (nServices i : Z)
  : list string :=
  [ indentation_String indent +:+ "end";
    EmptyString;
    indentation_String indent +:+ "class " +:+ camelCase svcName
      +:+ "Client < Twirp::Client";
    indentation_String indent +:+ "  client_for " +:+ camelCase svcName +:+ "Service";
    indentation_String indent +:+ "end" ]
  ++ (if (i <? nServices - 1)%Z then [EmptyString] else []).

Definition serviceLines (g : generator) (indent : Z) (pkgName : string)
    (nServices : Z) (i : Z) (service : ServiceDescriptorProto)
  : result (list string) :=
  match collect (methodLines g indent) (service_Method service) with
  | Panic msg => Panic msg
  | Ok entries =>
      Ok (serviceHead indent pkgName (getString (service_Name service))
          ++ entries
          ++ serviceTail indent (getString (service_Name service)) nServices i)
  end.

Definition servicesLines (g : generator) (file : FileDescriptorProto)
  : result (list string) :=
  collectIndexed 0
    (serviceLines g (Z.of_nat (length (modulesOf file)))
                  (getString (file_Package file))
                  (Z.of_nat (length (file_Service file))))
    (file_Service file).
End Lines.

(** *** Namespace lines *)

Fixpoint trimSpaces (s : string) : string :=
  match s with
  | String c rest => if Ascii.eqb c " " then trimSpaces rest else s
  | EmptyString => EmptyString
  end.

Fixpoint leadingSpaces (s : string) : nat :=
  match s with
  | String c rest => if Ascii.eqb c " " then S (leadingSpaces rest) else 0
  | EmptyString => 0
  end.

(** A printed line that opens a namespace: [module ...] after its indentation. *)
Definition isOpenLine (line : string) : bool :=
  strings.HasPrefix (trimSpaces line) "module ".

(** A printed line that closes a namespace of a file with [n] namespace
    segments: an [end] indented by fewer than [n] levels (the [end] of a
    class is indented by [n] levels). *)
Definition isCloseLine (n : nat) (line : string) : bool :=
  String.eqb (trimSpaces line) "end" && (leadingSpaces line <? 2 * n).

Definition countLines (P : string -> bool) (lines : list string) : nat :=
  length (List.filter P lines).

(** A line that neither opens nor closes a namespace of a file with [n]
    segments. *)
Definition plainLine (n : nat) (line : string) : Prop :=
  isOpenLine line = false /\ isCloseLine n line = false.

(** *** The response of [Generate] *)

(** What [Generate] appends to the response for the file [f]. *)
Definition generated (g : generator) (f : fileptr)
    (respFile : CodeGeneratorResponse_File) : Prop :=
  exists (file : FileDescriptorProto) (path : string) (rest : list string),
    ProtoFile (genReq g) !! f = Some file /\
    file_Name file = Some path /\
    resp_Name respFile = noExtension path +:+ "_twirp.rb" /\
    resp_Content respFile
    = Buffer_String
        ([ "# Code generated by protoc-gen-twirp_ruby " +:+ version g
           +:+ ", DO NOT EDIT.";
           "require 'twirp'";
           "require_relative '" +:+ (noExtension (onlyBase path) +:+ "_pb.rb")
           +:+ "'";
           EmptyString ] ++ rest).

(** *** More vocabulary for identifiers and paths *)

(** Letters and digits. *)
Definition isAlnum (c : ascii) : bool :=
  isASCIILower c || isASCIIUpper c || isASCIIDigit c.

Definition startsWithSeparator (s : string) : bool :=
  match s with
  | String c _ => isSeparator c
  | EmptyString => false
  end.

(** Some separator of [s] is immediately followed by a lower-case letter. *)
Fixpoint hasSeparatorLower (s : string) : bool :=
  match s with
  | EmptyString => false
  | String c rest => (isSeparator c && startsWithLower rest) || hasSeparatorLower rest
  end.

Fixpoint countByte (b : ascii) (s : string) : nat :=
  match s with
  | EmptyString => 0
  | String c rest => (if Ascii.eqb c b then 1 else 0) + countByte b rest
  end.

Definition noSlash (s : string) : bool :=
  allBytes (fun c => negb (Ascii.eqb c "/")) s.

(** The names on the way to a definition: its ancestors, then itself. *)
Definition qualifiedNames (r : Registry) (def : MessageDefinition) : list string :=
  map (fun d => getString (message_Name (Descriptor d))) (def_Lineage r def)
  ++ [getString (message_Name (Descriptor def))].

(** Every input and output type of every method of a file is registered. *)
Definition fileResolves (r : Registry) (file : FileDescriptorProto) : Prop :=
  forall service method,
    In service (file_Service file) ->
    In method (service_Method service) ->
    reg_MessageDefinition r (getString (method_InputType method)) <> None /\
    reg_MessageDefinition r (getString (method_OutputType method)) <> None.

(** A request whose registry knows a type of a file that the request does not
    hold. *)
Definition requestAlone : CodeGeneratorRequest := {|
  FileToGenerate := ["hello_world/service.proto"];
  ProtoFile := [Sample.hello]
|}.

(** A file without a name, requested by the empty name. *)
Definition nameless : FileDescriptorProto := {|
  file_Name := None;
  file_Package := Some "anon";
  file_Options := None;
  file_Service := []
|}.

Definition requestNameless : CodeGeneratorRequest := {|
  FileToGenerate := [EmptyString];
  ProtoFile := [Sample.hello; nameless]
|}.

(** *** The lines of the emitted text *)

Definition isNewline (c : ascii) : bool := Ascii.eqb c "010".

(** The pieces of a text that end at a newline, and what follows the last
    newline when that is not empty; [cur] is the piece read so far. *)
Fixpoint textLinesFrom (cur : string) (text : string) : list string :=
  match text with
  | EmptyString => if String.eqb cur EmptyString then [] else [cur]
  | String c rest =>
      if isNewline c then cur :: textLinesFrom EmptyString rest
      else textLinesFrom (cur +:+ String c EmptyString) rest
  end.

Definition textLines (text : string) : list string :=
  textLinesFrom EmptyString text.

Definition noNewline (line : string) : bool :=
  allBytes (fun c => negb (isNewline c)) line.

(** A file whose [ruby_package] option holds a newline. *)
Definition injected : FileDescriptorProto := {|
  file_Name := Some "inj.proto";
  file_Package := None;
  file_Options :=
    Some {| RubyPackage := Some (String "A" (String "010" "module B")) |};
  file_Service := []
|}.

Definition requestInjected : CodeGeneratorRequest := {|
  FileToGenerate := ["inj.proto"];
  ProtoFile := [injected]
|}.

(** *** File names in the words of the specification *)

Definition isSlash (c : ascii) : bool := Ascii.eqb c "/".

Definition notDotSlash (c : ascii) : bool :=
  negb (Ascii.eqb c ".") && negb (Ascii.eqb c "/").

(** [stem] is [path] with its extension removed. The extension begins at the
    last dot of the last element of the path; a path whose last element has no
    dot (every dot is followed by a slash) has no extension. *)
Definition withoutExtension (path stem : string) : Prop :=
  exists ext : string,
    path = stem +:+ ext /\
    ((ext = EmptyString /\
      forall i, String.get i path = Some "."%char ->
                exists j, i < j /\ String.get j path = Some "/"%char)
     \/ exists e, ext = String "." e /\ allBytes notDotSlash e = true).

(** [base] is the base name of [path], its directory stripped: the last
    element of the path, trailing slashes apart; ["."] for the empty path and
    ["/"] for a path of slashes. *)
Definition baseNameOf (path base : string) : Prop :=
  (path = EmptyString /\ base = ".") \/
  (path <> EmptyString /\ allBytes isSlash path = true /\ base = "/") \/
  (exists dir trail : string,
      path = dir +:+ base +:+ trail /\
      base <> EmptyString /\
      noSlash base = true /\
      allBytes isSlash trail = true /\
      (dir = EmptyString \/ exists d, dir = d +:+ "/")).

(** * Properties *)

(** ** Strings and bytes *)

Lemma sapp_nil_r (s : string) : s +:+ EmptyString = s.
Proof. induction s as [|c s IH]; [reflexivity|]. cbv [String.append]. fold String.append. by rewrite IH. Qed.

Lemma sapp_cons (c : ascii) (s t : string) : String c s +:+ t = String c (s +:+ t).
Proof. reflexivity. Qed.

Lemma sapp_nil_l (s : string) : EmptyString +:+ s = s.
Proof. reflexivity. Qed.

Lemma sapp_assoc (s t u : string) : (s +:+ t) +:+ u = s +:+ (t +:+ u).
Proof. induction s as [|c s IH]; [reflexivity|]. rewrite !sapp_cons. by rewrite IH. Qed.

Lemma slength_app (s t : string) :
  String.length (s +:+ t) = String.length s + String.length t.
Proof. induction s as [|c s IH]; [reflexivity|]. rewrite sapp_cons. simpl. by rewrite IH. Qed.

Lemma byteZ_range (c : ascii) : (0 <= byteZ c < 256)%Z.
Proof. destruct c as [[] [] [] [] [] [] [] []]; vm_compute; split; congruence. Qed.

Lemma Zbyte_byteZ (c : ascii) : Zbyte (byteZ c) = c.
Proof. destruct c as [[] [] [] [] [] [] [] []]; reflexivity. Qed.

Lemma byteZ_Zbyte (z : Z) : (0 <= z < 256)%Z -> byteZ (Zbyte z) = z.
Proof.
  intros Hz. unfold byteZ, Zbyte.
  rewrite N_ascii_embedding.
  - rewrite Z.mod_small by lia. apply Z2N.id. lia.
  - rewrite Z.mod_small by lia. change 256%N with (Z.to_N 256). apply Z2N.inj_lt; lia.
Qed.

(** A property of every byte is checked on the 256 bytes. *)
Ltac each_byte c := destruct c as [[] [] [] [] [] [] [] []]; vm_compute; try reflexivity; try congruence.

(** ** [camelCase] *)

Lemma camelCase_empty : camelCase EmptyString = EmptyString.
Proof. reflexivity. Qed.

Lemma camelCase_separator (rest : string) :
  camelCase (String "_" rest) = String "X" (camelLoop false rest).
Proof. reflexivity. Qed.

Lemma HasPrefix_empty (s : string) : strings.HasPrefix s EmptyString = true.
Proof. by destruct s. Qed.

Lemma camelCase_no_separator (s : string) :
  strings.HasPrefix s "_" = false -> camelCase s = camelLoop false s.
Proof.
  destruct s as [|c s]; [reflexivity|].
  cbn [strings.HasPrefix camelCase]. rewrite HasPrefix_empty, andb_true_r.
  by intros ->.
Qed.

(** C7, as stated: the output for ["_" ++ rest] is the placeholder followed by
    [camelCase rest]. It fails when the remainder begins with a separator
    itself: [camelCase "__a" = "XA"] while ["X" ++ camelCase "_a" = "XXA"]. *)
Lemma camelCase_placeholder_counterexample :
  camelCase "__a" = "XA" /\ String "X" (camelCase "_a") = "XXA" /\
  ~ (forall rest : string,
       camelCase (String "_" rest) = String "X" (camelCase rest)).
Proof.
  split; [reflexivity|]. split; [reflexivity|].
  intros Hall. specialize (Hall "_a"). vm_compute in Hall. discriminate.
Qed.

(** C7, amended: [camelCase ""] is [""]; on an input that begins with a
    separator [camelCase] emits the placeholder [X] and then continues its scan
    on the remainder, and whenever the remainder does not begin with a
    separator itself this is the placeholder followed by [camelCase] of the
    remainder. *)
Theorem camelCase_placeholder :
  camelCase EmptyString = EmptyString /\
  forall rest : string,
    camelCase (String "_" rest) = String "X" (camelLoop false rest) /\
    (strings.HasPrefix rest "_" = false ->
     camelCase (String "_" rest) = String "X" (camelCase rest)).
Proof.
  split; [reflexivity|]. intros rest. split; [reflexivity|].
  intros Hrest. rewrite camelCase_separator. f_equal.
  symmetry. by apply camelCase_no_separator.
Qed.

Lemma camelCase_placeholder_witness :
  strings.HasPrefix "my_field" "_" = false /\
  camelCase "_my_field" = String "X" (camelCase "my_field") /\
  camelCase "_my_field" = "XMyField".
Proof.
  split; [reflexivity|]. split; [|reflexivity].
  apply (proj2 (proj2 camelCase_placeholder "my_field")). reflexivity.
Defined.

(** ** [snakeCase] on ASCII strings *)

Ltac byte_cases c :=
  destruct c as [[] [] [] [] [] [] [] []]; vm_compute;
  try congruence; try tauto; intros; try discriminate; try reflexivity.

(** The same under a hypothesis on the byte, which is evaluated first. *)
Ltac byte_cases_if c :=
  destruct c as [[] [] [] [] [] [] [] []];
  let Hc := fresh "Hc" in
  intros Hc;
  first [ vm_compute in Hc; discriminate Hc
        | vm_compute; first [reflexivity | split; reflexivity] ].

Lemma ident_byte_ascii (c : ascii) : isIdentByte c = true -> isASCII c = true.
Proof. byte_cases c. Qed.

Lemma low_byte_ascii (c : ascii) : isLowByte c = true -> isASCII c = true.
Proof. byte_cases c. Qed.

Lemma low_byte_not_upper (c : ascii) : isLowByte c = true -> isASCIIUpper c = false.
Proof. byte_cases c. Qed.

Lemma lower_not_separator (c : ascii) : isASCIILower c = true -> Ascii.eqb c "_" = false.
Proof. byte_cases c. Qed.

Lemma digit_not_separator (c : ascii) : isASCIIDigit c = true -> Ascii.eqb c "_" = false.
Proof. byte_cases c. Qed.

Lemma digit_not_lower (c : ascii) : isASCIIDigit c = true -> isASCIILower c = false.
Proof. byte_cases c. Qed.

Lemma upcase_upper (c : ascii) :
  isASCIILower c = true -> isASCIIUpper (byte_xor c " ") = true.
Proof. byte_cases c. Qed.

Lemma upcase_lower (c : ascii) :
  isASCIILower c = true -> asciiToLower (byte_xor c " ") = c.
Proof. byte_cases c. Qed.

Lemma upcase_ascii (c : ascii) :
  isASCII c = true -> isASCII (byte_xor c " ") = true.
Proof. byte_cases c. Qed.

Lemma asciiToLower_low (c : ascii) : isIdentByte c = true -> isLowByte (asciiToLower c) = true.
Proof. byte_cases c. Qed.

Lemma asciiToLower_not_upper (c : ascii) : isASCIIUpper c = false -> asciiToLower c = c.
Proof. unfold asciiToLower. by intros ->. Qed.

Lemma upper_not_digit (c : ascii) : isASCIIUpper c = true -> isASCIIDigit c = false.
Proof. byte_cases c. Qed.

Lemma upper_lower_not_separator (c : ascii) :
  isASCIIUpper c = true -> isSeparator (asciiToLower c) = false.
Proof. byte_cases c. Qed.

Lemma allBytes_impl (P Q : ascii -> bool) (s : string) :
  (forall c, P c = true -> Q c = true) -> allBytes P s = true -> allBytes Q s = true.
Proof.
  intros HPQ. induction s as [|c s IH]; [done|]. cbn [allBytes].
  intros [Hc Hs]%andb_true_iff. apply andb_true_iff. auto.
Qed.

Section SnakeAscii.
Context `{UnicodeTables}.

Lemma IsUpper_ascii (c : ascii) :
  isASCII c = true -> unicode.IsUpper (byteZ c) = isASCIIUpper c.
Proof. byte_cases_if c. Qed.

Lemma EncodeRune_ToLower_ascii (c : ascii) :
  isASCII c = true ->
  utf8.EncodeRune (unicode.ToLower (byteZ c)) = String (asciiToLower c) EmptyString.
Proof. byte_cases_if c. Qed.

Lemma DecodeRune_ascii (c : ascii) (rest : string) :
  isASCII c = true -> utf8.DecodeRuneInString (String c rest) = (byteZ c, 1).
Proof. unfold isASCII, utf8.DecodeRuneInString. by intros ->. Qed.

(** After the first iteration every byte index is positive. *)
Lemma snake_loop_ascii (s : string) :
  allBytes isASCII s = true ->
  forall (i : Z) (buf : string), (0 < i)%Z ->
    fold_left snakeStep (utf8.rangeFrom i 0 s) buf = buf +:+ snakeTail s.
Proof.
  induction s as [|c s IH]; intros Hs i buf Hi.
  - cbn. by rewrite sapp_nil_r.
  - cbn [allBytes] in Hs. apply andb_true_iff in Hs as [Hc Hs].
    cbn [utf8.rangeFrom]. rewrite DecodeRune_ascii by done.
    cbn [fst snd Nat.sub fold_left snakeStep].
    rewrite IsUpper_ascii, EncodeRune_ToLower_ascii by done.
    rewrite IH by (done || lia).
    replace (0 <? i)%Z with true by (symmetry; apply Z.ltb_lt; lia).
    rewrite andb_true_r. cbn [snakeTail].
    destruct (isASCIIUpper c); by rewrite !sapp_assoc.
Qed.

Lemma snakeCase_ascii (s : string) :
  allBytes isASCII s = true -> snakeCase s = snakeAscii s.
Proof.
  destruct s as [|c s]; [reflexivity|]. intros Hs.
  cbn [allBytes] in Hs. apply andb_true_iff in Hs as [Hc Hs].
  unfold snakeCase, utf8.rangeString. cbn [utf8.rangeFrom].
  rewrite DecodeRune_ascii by done.
  cbn [fst snd Nat.sub fold_left snakeStep].
  rewrite EncodeRune_ToLower_ascii by done.
  rewrite snake_loop_ascii by (done || lia).
  change (0 <? 0)%Z with false. rewrite andb_false_r. reflexivity.
Qed.
End SnakeAscii.

(** ** The round trip through [camelCase] *)

Lemma startsWithDigit_snakeTail (s : string) :
  startsWithDigit (snakeTail s) = startsWithDigit s.
Proof.
  destruct s as [|c s]; [reflexivity|]. cbn [snakeTail].
  destruct (isASCIIUpper c) eqn:Hc; cbn [startsWithDigit].
  - rewrite (upper_not_digit c) by done. reflexivity.
  - by rewrite asciiToLower_not_upper.
Qed.

Lemma snakeTail_low (s : string) :
  isIdentifier s = true -> allBytes isLowByte (snakeTail s) = true.
Proof.
  unfold isIdentifier. induction s as [|c s IH]; [done|]. cbn [allBytes snakeTail].
  intros [Hc Hs]%andb_true_iff.
  destruct (isASCIIUpper c); cbn [allBytes];
    rewrite asciiToLower_low, IH by done; reflexivity.
Qed.

Lemma snakeTail_no_separator_digit (s : string) :
  hasSeparatorDigit s = false -> hasSeparatorDigit (snakeTail s) = false.
Proof.
  induction s as [|c s IH]; [done|]. cbn [hasSeparatorDigit snakeTail].
  intros [Hc Hs]%orb_false_iff.
  destruct (isASCIIUpper c) eqn:Hup; cbn [hasSeparatorDigit startsWithDigit].
  - rewrite upper_lower_not_separator by done.
    rewrite IH by done.
    assert (isASCIIDigit (asciiToLower c) = false) as ->; [|reflexivity].
    revert Hup. clear. byte_cases c.
  - rewrite asciiToLower_not_upper by done.
    by rewrite startsWithDigit_snakeTail, Hc, IH.
Qed.

Lemma camelLoop_ascii (s : string) (accept : bool) :
  allBytes isASCII s = true -> allBytes isASCII (camelLoop accept s) = true.
Proof.
  revert accept. induction s as [|c s IH]; intros accept; [done|].
  cbn [allBytes camelLoop]. intros [Hc Hs]%andb_true_iff.
  destruct (accept && (isASCIILower c || isASCIIDigit c)).
  { cbn [allBytes]. by rewrite Hc, IH. }
  destruct (Ascii.eqb c "_" && nextLowerOrDigit s); [by apply IH|].
  cbn [allBytes]. rewrite IH by done. rewrite andb_true_r.
  destruct (isASCIILower c); [by apply upcase_ascii | done].
Qed.

Lemma camelCase_ascii (s : string) :
  allBytes isASCII s = true -> allBytes isASCII (camelCase s) = true.
Proof.
  destruct s as [|c s]; [done|]. unfold camelCase.
  destruct (Ascii.eqb c "_").
  - cbn [allBytes]. intros [_ Hs]%andb_true_iff. by rewrite camelLoop_ascii.
  - apply camelLoop_ascii.
Qed.

(** On a snake-cased identifier without a separator before a digit, the scan
    of [camelCase] is undone by the scan of [snakeCase]: in the inner loop
    ([accept]), and at a word that starts with a lower-case letter. *)
Lemma snakeTail_camelLoop (t : string) :
  allBytes isLowByte t = true ->
  hasSeparatorDigit t = false ->
  snakeTail (camelLoop true t) = t /\
  (startsWithLower t = true -> snakeTail (camelLoop false t) = String "_" t).
Proof.
  induction t as [|c t IH]; [by split|].
  cbn [allBytes hasSeparatorDigit]. intros [Hc Ht]%andb_true_iff [Hsd Hnsd]%orb_false_iff.
  destruct (IH Ht Hnsd) as [IHt IHf]. clear IH.
  split.
  - cbn [camelLoop andb].
    destruct (isASCIILower c || isASCIIDigit c) eqn:Hld.
    + cbn [snakeTail]. rewrite low_byte_not_upper by done.
      rewrite asciiToLower_not_upper by (by apply low_byte_not_upper).
      by rewrite IHt.
    + assert (Ascii.eqb c "_" = true) as Hsep.
      { revert Hc Hld. unfold isLowByte, isSeparator.
        destruct (isASCIILower c), (isASCIIDigit c); cbn; congruence. }
      rewrite Hsep. cbn [andb].
      destruct (nextLowerOrDigit t) eqn:Hnext.
      * apply Ascii.eqb_eq in Hsep as ->. apply IHf.
        destruct t as [|d t]; [done|]. cbn in Hnext, Hsd |- *.
        apply orb_true_iff in Hnext as [Hl|Hd]; [done|]. congruence.
      * apply orb_false_iff in Hld as [Hl _]. rewrite Hl.
        cbn [snakeTail]. rewrite low_byte_not_upper by done.
        rewrite asciiToLower_not_upper by (by apply low_byte_not_upper).
        by rewrite IHt.
  - cbn [startsWithLower]. intros Hl.
    cbn [camelLoop andb]. rewrite lower_not_separator by done. cbn [andb].
    rewrite Hl. cbn [snakeTail].
    by rewrite upcase_upper, upcase_lower, IHt.
Qed.

Lemma snakeAscii_camelCase (t : string) :
  allBytes isLowByte t = true ->
  strings.HasPrefix t "_" = false ->
  hasSeparatorDigit t = false ->
  snakeAscii (camelCase t) = t.
Proof.
  intros Hlow Hpre Hsd. rewrite camelCase_no_separator by done.
  destruct t as [|c t]; [done|].
  cbn [strings.HasPrefix] in Hpre. rewrite HasPrefix_empty, andb_true_r in Hpre.
  cbn [allBytes hasSeparatorDigit] in Hlow, Hsd.
  apply andb_true_iff in Hlow as [Hc Ht]. apply orb_false_iff in Hsd as [_ Hsd].
  destruct (snakeTail_camelLoop t Ht Hsd) as [IHt _].
  cbn [camelLoop andb]. rewrite Hpre. cbn [andb].
  destruct (isASCIILower c) eqn:Hl; cbn [snakeAscii].
  - by rewrite upcase_lower, IHt.
  - rewrite asciiToLower_not_upper by (by apply low_byte_not_upper). by rewrite IHt.
Qed.

Section RoundTrip.
Context `{UnicodeTables}.

Lemma snakeCase_identifier (s : string) :
  isIdentifier s = true ->
  snakeCase s = snakeAscii s /\
  allBytes isLowByte (snakeAscii s) = true /\
  strings.HasPrefix (snakeAscii s) "_" = strings.HasPrefix s "_" /\
  (hasSeparatorDigit s = false -> hasSeparatorDigit (snakeAscii s) = false).
Proof.
  intros Hs. split.
  { apply snakeCase_ascii. revert Hs. apply allBytes_impl, ident_byte_ascii. }
  destruct s as [|c s]; [done|].
  unfold isIdentifier in Hs. cbn [allBytes] in Hs.
  apply andb_true_iff in Hs as [Hc Hs]. cbn [snakeAscii].
  split; [|split].
  - cbn [allBytes]. by rewrite asciiToLower_low, snakeTail_low.
  - cbn [strings.HasPrefix]. rewrite !HasPrefix_empty. f_equal.
    revert Hc. clear. byte_cases c.
  - cbn [hasSeparatorDigit]. intros [Hc' Hsd]%orb_false_iff.
    rewrite startsWithDigit_snakeTail, snakeTail_no_separator_digit by done.
    rewrite orb_false_r.
    destruct (startsWithDigit s); [|by rewrite andb_false_r].
    rewrite andb_true_r in Hc' |- *.
    revert Hc Hc'. clear. byte_cases c.
Qed.

(** C2, amended: for every string [s] of ASCII letters, digits and
    separators that does not begin with a separator and in which no
    separator is immediately followed by a digit,
    [snakeCase (camelCase (snakeCase s)) = snakeCase s]. *)
Theorem snakeCase_roundtrip (s : string) :
  isIdentifier s = true ->
  strings.HasPrefix s "_" = false ->
  hasSeparatorDigit s = false ->
  snakeCase (camelCase (snakeCase s)) = snakeCase s.
Proof.
  intros Hid Hpre Hsd.
  destruct (snakeCase_identifier s Hid) as (-> & Hlow & Hpre' & Hsd').
  rewrite snakeCase_ascii.
  - apply snakeAscii_camelCase; [done| congruence | auto].
  - apply camelCase_ascii. revert Hlow. apply allBytes_impl, low_byte_ascii.
Qed.
End RoundTrip.

(** C2, as stated, fails on an identifier with a leading separator and on one
    with a separator before a digit: ["_a"] comes back as ["x_a"] and ["a_1"]
    as ["a1"]. *)
Lemma snakeCase_roundtrip_counterexample :
  isIdentifier "_a" = true /\ isIdentifier "a_1" = true /\
  @snakeCase latin1Tables (camelCase (@snakeCase latin1Tables "_a")) = "x_a" /\
  @snakeCase latin1Tables "_a" = "_a" /\
  @snakeCase latin1Tables (camelCase (@snakeCase latin1Tables "a_1")) = "a1" /\
  @snakeCase latin1Tables "a_1" = "a_1" /\
  ~ (forall s : string, isIdentifier s = true ->
       @snakeCase latin1Tables (camelCase (@snakeCase latin1Tables s))
       = @snakeCase latin1Tables s).
Proof.
  repeat (split; [vm_compute; reflexivity|]).
  intros Hall. specialize (Hall "_a" eq_refl). vm_compute in Hall. discriminate.
Qed.

Lemma snakeCase_roundtrip_witness :
  @snakeCase latin1Tables (camelCase (@snakeCase latin1Tables "SayHello_v2"))
  = @snakeCase latin1Tables "SayHello_v2".
Proof.
  apply (@snakeCase_roundtrip latin1Tables "SayHello_v2"); reflexivity.
Defined.

(** ** UTF-8: what [EncodeRune] writes is read back as one rune *)

(** A property of the integers below [n] is checked on each of them. *)
Lemma Zrange_check (P : Z -> bool) (n : nat) :
  forallb P (map Z.of_nat (seq 0 n)) = true ->
  forall z, (0 <= z < Z.of_nat n)%Z -> P z = true.
Proof.
  intros Hall z Hz. rewrite forallb_forall in Hall. apply Hall.
  apply in_map_iff. exists (Z.to_nat z). split; [lia|].
  apply in_seq. lia.
Qed.

Lemma land_63 (z : Z) : (0 <= Z.land z 0x3F < 64)%Z.
Proof.
  change 0x3F%Z with (Z.ones 6). rewrite Z.land_ones by lia.
  apply Z.mod_pos_bound. reflexivity.
Qed.

Lemma tail6_range (z : Z) : byte_in 0x80 0xBF (utf8.tail6 z) = true.
Proof.
  unfold utf8.tail6. generalize (land_63 z). generalize (Z.land z 0x3F).
  intros y Hy.
  apply (Zrange_check (fun y => byte_in 0x80 0xBF (Zbyte (Z.lor 0x80 y))) 64);
    [vm_compute; reflexivity | lia].
Qed.

Lemma shiftr_6 (r : Z) : Z.shiftr r 6 = (r / 64)%Z.
Proof. by rewrite Z.shiftr_div_pow2. Qed.

Lemma shiftr_12 (r : Z) : Z.shiftr r 12 = Z.shiftr (Z.shiftr r 6) 6.
Proof. by rewrite Z.shiftr_shiftr. Qed.

Lemma shiftr_18 (r : Z) : Z.shiftr r 18 = Z.shiftr (Z.shiftr r 12) 6.
Proof. by rewrite Z.shiftr_shiftr. Qed.

Lemma div_bounds (r d : Z) :
  (0 < d)%Z -> (d * (r / d) <= r < d * (r / d) + d)%Z.
Proof.
  intros Hd. pose proof (Z.div_mod r d). pose proof (Z.mod_pos_bound r d). lia.
Qed.

Lemma lead2_encode (x : Z) :
  (2 <= x < 32)%Z -> lead2 (Zbyte (Z.lor 0xC0 x)) = true.
Proof.
  intros Hx.
  pose (P := fun x => implb (2 <=? x)%Z (lead2 (Zbyte (Z.lor 0xC0 x)))).
  assert (P x = true) as Hc.
  { apply (Zrange_check P 32); [vm_compute; reflexivity | lia]. }
  unfold P in Hc.
  replace (2 <=? x)%Z with true in Hc by (symmetry; apply Z.leb_le; lia). exact Hc.
Qed.

Lemma lead3_encode (u : Z) :
  (32 <= u < 1024)%Z -> ~ (0x360 <= u <= 0x37F)%Z ->
  lead3 (Zbyte (Z.lor 0xE0 (Z.shiftr u 6))) (utf8.tail6 u) = true.
Proof.
  intros Hu Hsur.
  pose (P := fun u => implb ((32 <=? u) && negb ((0x360 <=? u) && (u <=? 0x37F)))%Z
                        (lead3 (Zbyte (Z.lor 0xE0 (Z.shiftr u 6))) (utf8.tail6 u))).
  assert (P u = true) as Hc.
  { apply (Zrange_check P 1024); [vm_compute; reflexivity | lia]. }
  unfold P in Hc.
  replace ((32 <=? u) && negb ((0x360 <=? u) && (u <=? 0x37F)))%Z with true in Hc;
    [exact Hc|].
  symmetry. apply andb_true_iff. split; [apply Z.leb_le; lia|].
  apply negb_true_iff, andb_false_iff.
  destruct (Z.leb_spec 0x360 u); [right; apply Z.leb_gt; lia | by left].
Qed.

Lemma lead4_encode (u : Z) :
  (16 <= u < 0x110)%Z ->
  lead4 (Zbyte (Z.lor 0xF0 (Z.shiftr u 6))) (utf8.tail6 u) = true.
Proof.
  intros Hu.
  pose (P := fun u => implb (16 <=? u)%Z
                        (lead4 (Zbyte (Z.lor 0xF0 (Z.shiftr u 6))) (utf8.tail6 u))).
  assert (P u = true) as Hc.
  { apply (Zrange_check P 272); [vm_compute; reflexivity | lia]. }
  unfold P in Hc.
  replace (16 <=? u)%Z with true in Hc by (symmetry; apply Z.leb_le; lia). exact Hc.
Qed.

Lemma Decode_width1 (b0 : ascii) (rest : string) :
  (byteZ b0 <? 0x80)%Z = true ->
  snd (utf8.DecodeRuneInString (String b0 rest)) = 1.
Proof. unfold utf8.DecodeRuneInString. by intros ->. Qed.

Lemma Decode_width2 (b0 b1 : ascii) (rest : string) :
  lead2 b0 = true -> byte_in 0x80 0xBF b1 = true ->
  snd (utf8.DecodeRuneInString (String b0 (String b1 rest))) = 2.
Proof.
  unfold lead2, utf8.DecodeRuneInString.
  intros [H0%negb_true_iff H1]%andb_true_iff H2. by rewrite H0, H1, H2.
Qed.

Lemma Decode_width3 (b0 b1 b2 : ascii) (rest : string) :
  lead3 b0 b1 = true -> byte_in 0x80 0xBF b2 = true ->
  snd (utf8.DecodeRuneInString (String b0 (String b1 (String b2 rest)))) = 3.
Proof.
  unfold lead3, utf8.DecodeRuneInString.
  intros [[[H0%negb_true_iff H1%negb_true_iff]%andb_true_iff H2]%andb_true_iff H3]%andb_true_iff H4.
  cbv zeta. by rewrite H0, H1, H2, H3, H4.
Qed.

Lemma Decode_width4 (b0 b1 b2 b3 : ascii) (rest : string) :
  lead4 b0 b1 = true -> byte_in 0x80 0xBF b2 = true -> byte_in 0x80 0xBF b3 = true ->
  snd (utf8.DecodeRuneInString
         (String b0 (String b1 (String b2 (String b3 rest))))) = 4.
Proof.
  unfold lead4, utf8.DecodeRuneInString.
  intros [[[[H0%negb_true_iff H1%negb_true_iff]%andb_true_iff
              H2%negb_true_iff]%andb_true_iff H3]%andb_true_iff H4]%andb_true_iff H5 H6.
  cbv zeta. by rewrite H0, H1, H2, H3, H4, H5, H6.
Qed.

Lemma EncodeRune_width (r : Z) (rest : string) :
  snd (utf8.DecodeRuneInString (utf8.EncodeRune r +:+ rest))
  = String.length (utf8.EncodeRune r) /\
  (0 < String.length (utf8.EncodeRune r))%nat.
Proof.
  unfold utf8.EncodeRune, utf8.MaxRune.
  pose proof (div_bounds r 64 eq_refl) as Hr6.
  pose proof (div_bounds r 4096 eq_refl) as Hr12.
  destruct ((0 <=? r) && (r <=? 0x7F))%Z eqn:H1.
  { apply andb_true_iff in H1 as [?%Z.leb_le ?%Z.leb_le].
    split; [|cbn; lia]. rewrite sapp_cons. apply Decode_width1.
    rewrite byteZ_Zbyte by lia. apply Z.ltb_lt. lia. }
  destruct ((0 <=? r) && (r <=? 0x7FF))%Z eqn:H2.
  { apply andb_true_iff in H2 as [H0%Z.leb_le H2%Z.leb_le].
    assert (0x7F < r)%Z.
    { apply andb_false_iff in H1 as [?%Z.leb_gt|?%Z.leb_gt]; lia. }
    split; [|cbn; lia]. rewrite !sapp_cons. apply Decode_width2.
    - apply lead2_encode. rewrite shiftr_6. lia.
    - apply tail6_range. }
  destruct ((0 <=? r) && ((r <? 0xD800) || ((0xDFFF <? r) && (r <=? 0xFFFF))))%Z eqn:H3.
  { apply andb_true_iff in H3 as [H0%Z.leb_le H3].
    assert (0x7FF < r)%Z.
    { apply andb_false_iff in H2 as [?%Z.leb_gt|?%Z.leb_gt]; lia. }
    assert (r <= 0xFFFF /\ ~ (0xD800 <= r <= 0xDFFF))%Z as [Hmax Hsur].
    { apply orb_true_iff in H3 as [?%Z.ltb_lt|[?%Z.ltb_lt ?%Z.leb_le]%andb_true_iff]; lia. }
    split; [|cbn; lia]. rewrite !sapp_cons. rewrite shiftr_12.
    apply Decode_width3; [|apply tail6_range].
    apply lead3_encode; rewrite shiftr_6; lia. }
  destruct ((0xFFFF <? r) && (r <=? 0x10FFFF))%Z eqn:H4.
  { apply andb_true_iff in H4 as [Hlo%Z.ltb_lt Hhi%Z.leb_le].
    split; [|cbn; lia]. rewrite !sapp_cons. rewrite shiftr_18.
    apply Decode_width4; [|apply tail6_range|apply tail6_range].
    apply lead4_encode. rewrite Z.shiftr_div_pow2 by lia. change (2 ^ 12)%Z with 4096%Z.
    lia. }
  split; [|cbn; lia]. rewrite !sapp_cons.
  apply Decode_width3; vm_compute; reflexivity.
Qed.

Lemma rangeFrom_skip (pre rest : string) (i : Z) :
  utf8.rangeFrom i (String.length pre) (pre +:+ rest)
  = utf8.rangeFrom (i + Z.of_nat (String.length pre)) 0 rest.
Proof.
  revert i. induction pre as [|c pre IH]; intros i.
  - cbn [String.length]. rewrite sapp_nil_l. f_equal. lia.
  - rewrite sapp_cons. cbn [String.length utf8.rangeFrom]. rewrite IH. f_equal. lia.
Qed.

Lemma rangeFrom_encode (r : Z) (rest : string) (i : Z) :
  utf8.rangeFrom i 0 (utf8.EncodeRune r +:+ rest)
  = (i, fst (utf8.DecodeRuneInString (utf8.EncodeRune r +:+ rest)))
      :: utf8.rangeFrom (i + Z.of_nat (String.length (utf8.EncodeRune r))) 0 rest.
Proof.
  destruct (EncodeRune_width r rest) as [Hw Hpos].
  destruct (utf8.EncodeRune r) as [|b0 pre]; [cbn in Hpos; lia|].
  rewrite sapp_cons in Hw |- *. cbn [utf8.rangeFrom]. rewrite Hw.
  cbn [String.length]. replace (S (String.length pre) - 1) with (String.length pre) by lia.
  rewrite rangeFrom_skip. do 2 f_equal. lia.
Qed.

Lemma rangeFrom_index (s : string) (i : Z) (k : nat) :
  Forall (fun ir => (i <= fst ir)%Z) (utf8.rangeFrom i k s).
Proof.
  revert i k. induction s as [|c s IH]; intros i k; [constructor|].
  cbn [utf8.rangeFrom]. destruct k as [|k].
  - constructor; [cbn; lia|]. eapply Forall_impl; [apply IH|]. cbn. intros; lia.
  - eapply Forall_impl; [apply IH|]. cbn. intros; lia.
Qed.

Section SnakeScan.
Context `{UnicodeTables}.

Lemma RuneCount_encodeRunes (rs : list Z) :
  utf8.RuneCountInString (encodeRunes rs) = length rs.
Proof.
  unfold utf8.RuneCountInString, utf8.rangeString. generalize 0%Z.
  induction rs as [|r rs IH]; intros i; [reflexivity|].
  cbn [encodeRunes fold_right]. rewrite rangeFrom_encode. cbn [length].
  f_equal. apply IH.
Qed.

Lemma EncodeRune_separator : utf8.EncodeRune separator = "_".
Proof. reflexivity. Qed.

(** The iterations after the first one: every byte index is positive. *)
Lemma snake_loop_rest (l : list (Z * Z)) (buf : string) :
  Forall (fun ir => (0 < fst ir)%Z) l ->
  fold_left snakeStep l buf = buf +:+ encodeRunes (snakeRest (map snd l)).
Proof.
  revert buf. induction l as [|[i r] l IH]; intros buf Hl.
  - cbn. by rewrite sapp_nil_r.
  - apply Forall_cons in Hl as [Hi Hl]. cbn [fst] in Hi.
    cbn [fold_left map snd snakeRest snakeStep]. rewrite IH by done.
    replace (0 <? i)%Z with true by (symmetry; apply Z.ltb_lt; lia).
    rewrite andb_true_r.
    destruct (unicode.IsUpper r); cbn [encodeRunes fold_right].
    + rewrite EncodeRune_separator. by rewrite !sapp_assoc.
    + by rewrite !sapp_assoc.
Qed.

Lemma snakeCase_refines_spec (s : string) :
  snakeCase s = encodeRunes (to_snake_case_spec (runes s)).
Proof.
  unfold snakeCase, runes, utf8.rangeString.
  destruct s as [|c s]; [reflexivity|].
  cbn [utf8.rangeFrom map snd to_snake_case_spec fold_left snakeStep].
  change (0 <? 0)%Z with false. rewrite andb_false_r.
  rewrite snake_loop_rest.
  - reflexivity.
  - eapply Forall_impl; [apply rangeFrom_index|]. cbn. intros; lia.
Qed.

Lemma length_snakeRest (rs : list Z) : length rs <= length (snakeRest rs).
Proof.
  induction rs as [|r rs IH]; [done|]. cbn [snakeRest].
  destruct (unicode.IsUpper r); cbn [length]; lia.
Qed.

Lemma length_to_snake_case_spec (rs : list Z) :
  length rs <= length (to_snake_case_spec rs).
Proof.
  destruct rs as [|r rs]; [done|]. cbn [to_snake_case_spec length].
  pose proof (length_snakeRest rs). lia.
Qed.

Lemma digit_separator_pass (c : ascii) :
  isASCIIDigit c = true \/ isSeparator c = true ->
  unicode.IsUpper (byteZ c) = false /\ unicode.ToLower (byteZ c) = byteZ c.
Proof.
  intros Hc.
  assert (isASCIIDigit c || isSeparator c = true) as Hb
    by (apply orb_true_iff; exact Hc).
  revert Hb. clear. byte_cases_if c.
Qed.

Lemma length_snakeTail (s : string) :
  String.length s <= String.length (snakeTail s).
Proof.
  induction s as [|c s IH]; [done|]. cbn [snakeTail].
  destruct (isASCIIUpper c); cbn [String.length]; lia.
Qed.

(** C6: [snakeCase s] is the left-to-right scan of the code points of [s]
    that inserts a separator before each uppercase letter that is not the
    first character and folds every character to lower case; digits and
    separators are not uppercase and fold to themselves; and the result has
    at least as many code points as the input (and, on ASCII input, at
    least as many bytes). *)
Theorem snakeCase_scan (s : string) :
  snakeCase s = encodeRunes (to_snake_case_spec (runes s)) /\
  (forall c : ascii,
      isASCIIDigit c = true \/ isSeparator c = true ->
      unicode.IsUpper (byteZ c) = false /\ unicode.ToLower (byteZ c) = byteZ c) /\
  utf8.RuneCountInString s <= utf8.RuneCountInString (snakeCase s) /\
  (allBytes isASCII s = true -> String.length s <= String.length (snakeCase s)).
Proof.
  split; [apply snakeCase_refines_spec|].
  split; [apply digit_separator_pass|].
  split.
  - rewrite snakeCase_refines_spec, RuneCount_encodeRunes.
    etransitivity; [|apply length_to_snake_case_spec].
    unfold runes, utf8.RuneCountInString. by rewrite length_map.
  - intros Hs. rewrite snakeCase_ascii by done.
    destruct s as [|c s]; [done|]. cbn [snakeAscii String.length].
    pose proof (length_snakeTail s). lia.
Qed.
End SnakeScan.

Lemma snakeCase_scan_witness :
  (isASCIIDigit "2" = true \/ isSeparator "2" = true) /\
  allBytes isASCII "SayHello_2" = true /\
  @snakeCase latin1Tables "SayHello_2" = "say_hello_2" /\
  String.length "SayHello_2" <= String.length (@snakeCase latin1Tables "SayHello_2").
Proof.
  split; [by left|]. split; [reflexivity|]. split; [reflexivity|].
  apply (proj2 (proj2 (proj2 (@snakeCase_scan latin1Tables "SayHello_2")))).
  reflexivity.
Defined.

(** ** File selection: [findProtoFilesToGenerate] *)

Lemma fileDescSliceContains_In (slice : list fileptr) (f : fileptr) :
  fileDescSliceContains slice f = true <-> In f slice.
Proof.
  induction slice as [|sf slice IH]; cbn [fileDescSliceContains In].
  - split; [discriminate | tauto].
  - destruct (Nat.eqb_spec f sf) as [->|Hne].
    + tauto.
    + rewrite IH. split; [tauto | intros [?|?]; congruence].
Qed.

Lemma matchName_loop (name : string) (files : list (fileptr * FileDescriptorProto))
    (acc : list fileptr) :
  fold_left (matchName name) files acc = acc ++ filesNamed name files.
Proof.
  revert acc. unfold filesNamed.
  induction files as [|pf files IH]; intros acc; cbn [fold_left List.filter map].
  - by rewrite app_nil_r.
  - rewrite IH. unfold matchName.
    destruct (String.eqb (getString (file_Name (snd pf))) name); [|reflexivity].
    cbn [map]. by rewrite <- app_assoc.
Qed.

Lemma genFiles_loop (names : list string) (files : list (fileptr * FileDescriptorProto))
    (acc : list fileptr) :
  fold_left (fun acc name => fold_left (matchName name) files acc) names acc
  = acc ++ flat_map (fun name => filesNamed name files) names.
Proof.
  revert acc. induction names as [|name names IH]; intros acc; cbn [fold_left flat_map].
  - by rewrite app_nil_r.
  - rewrite IH, matchName_loop. by rewrite <- app_assoc.
Qed.

Lemma In_rangeFiles (files : list FileDescriptorProto) (i p : fileptr)
    (f : FileDescriptorProto) :
  In (p, f) (rangeFiles i files) <-> exists k, p = i + k /\ files !! k = Some f.
Proof.
  revert i. induction files as [|f0 files IH]; intros i; cbn [rangeFiles In].
  - split; [tauto | intros (k & _ & Hk); by destruct k].
  - rewrite IH. split.
    + intros [[= <- <-]|(k & -> & Hk)].
      * exists 0. split; [lia | done].
      * exists (S k). split; [lia | done].
    + intros ([|k] & -> & Hk).
      * left. cbn in Hk. injection Hk as ->. f_equal. lia.
      * right. exists k. split; [lia | done].
Qed.

Lemma In_filesNamed (name : string) (files : list FileDescriptorProto) (p : fileptr) :
  In p (filesNamed name (rangeFiles 0 files)) <->
  exists f, files !! p = Some f /\ getString (file_Name f) = name.
Proof.
  unfold filesNamed. rewrite in_map_iff. split.
  - intros ([p' f] & <- & Hin). apply filter_In in Hin as [Hin Hname].
    apply In_rangeFiles in Hin as (k & -> & Hk). cbn [fst snd] in *.
    exists f. split; [done|]. by apply String.eqb_eq.
  - intros (f & Hf & Hname). exists (p, f). split; [done|].
    apply filter_In. split.
    + apply In_rangeFiles. by exists p.
    + cbn [snd]. by apply String.eqb_eq.
Qed.

Lemma recordPackage_loop_outside (gf : list fileptr) (files : list FileDescriptorProto)
    (i : fileptr) (m : gmap fileptr string) (p : fileptr) :
  p < i ->
  fold_left (recordPackage gf) (rangeFiles i files) m !! p = m !! p.
Proof.
  revert i m. induction files as [|f files IH]; intros i m Hp; [done|].
  cbn [rangeFiles fold_left]. rewrite IH by lia.
  unfold recordPackage. cbn [fst snd].
  destruct (fileDescSliceContains gf i); apply lookup_insert_ne; lia.
Qed.

Lemma recordPackage_loop_inside (gf : list fileptr) (files : list FileDescriptorProto)
    (i : fileptr) (m : gmap fileptr string) (k : nat) (f : FileDescriptorProto) :
  files !! k = Some f ->
  fold_left (recordPackage gf) (rangeFiles i files) m !! (i + k)
  = Some (if fileDescSliceContains gf (i + k) then EmptyString
          else getString (file_Package f)).
Proof.
  revert i m k. induction files as [|f0 files IH]; intros i m k Hk; [done|].
  cbn [rangeFiles fold_left]. destruct k as [|k].
  - cbn in Hk. injection Hk as ->. rewrite Nat.add_0_r.
    rewrite recordPackage_loop_outside by lia.
    unfold recordPackage. cbn [fst snd].
    destruct (fileDescSliceContains gf i); apply lookup_insert_eq.
  - cbn in Hk. replace (i + S k) with (S i + k) by lia. by apply IH.
Qed.

Section Selection.
Variables (Version : string) (R : Registry) (req : CodeGeneratorRequest).

Local Abbreviation g' := (findProtoFilesToGenerate (newGenerator Version R req)).

Lemma genFiles_selected :
  genFiles g'
  = flat_map (fun name => filesNamed name (rangeFiles 0 (ProtoFile req)))
             (FileToGenerate req).
Proof. cbn. by rewrite genFiles_loop. Qed.

Lemma In_genFiles (p : fileptr) :
  In p (genFiles g') <->
  exists f, ProtoFile req !! p = Some f /\
            In (getString (file_Name f)) (FileToGenerate req).
Proof.
  rewrite genFiles_selected, in_flat_map. split.
  - intros (name & Hname & Hp). apply In_filesNamed in Hp as (f & Hf & <-). eauto.
  - intros (f & Hf & Hname). eexists. split; [exact Hname|].
    apply In_filesNamed. eauto.
Qed.

Lemma package_recorded (p : fileptr) (f : FileDescriptorProto) :
  ProtoFile req !! p = Some f ->
  fileToGoPackageName g' !! p
  = Some (if fileDescSliceContains (genFiles g') p then EmptyString
          else getString (file_Package f)).
Proof.
  intros Hf. cbn [findProtoFilesToGenerate fileToGoPackageName genFiles].
  by apply (recordPackage_loop_inside _ _ 0 _ p f).
Qed.

Lemma packageOf_generate (p : fileptr) :
  In p (genFiles g') -> packageOf g' p = EmptyString.
Proof.
  intros Hp. pose proof Hp as (f & Hf & _)%In_genFiles.
  unfold packageOf. rewrite (package_recorded p f Hf).
  apply fileDescSliceContains_In in Hp. by rewrite Hp.
Qed.

Lemma packageOf_dependency (p : fileptr) (f : FileDescriptorProto) :
  ProtoFile req !! p = Some f -> ~ In p (genFiles g') ->
  packageOf g' p = getString (file_Package f).
Proof.
  intros Hf Hp. unfold packageOf. rewrite (package_recorded p f Hf).
  destruct (fileDescSliceContains (genFiles g') p) eqn:Hc; [|done].
  by apply fileDescSliceContains_In in Hc.
Qed.

Lemma generationRole_generate (p : fileptr) :
  generationRole g' p = generate <-> In p (genFiles g').
Proof.
  unfold generationRole. rewrite <- fileDescSliceContains_In.
  destruct (fileDescSliceContains (genFiles g') p); split; congruence.
Qed.

Lemma generationRole_dependency (p : fileptr) :
  generationRole g' p = dependency_only <-> ~ In p (genFiles g').
Proof.
  unfold generationRole. rewrite <- fileDescSliceContains_In.
  destruct (fileDescSliceContains (genFiles g') p); split; congruence.
Qed.
End Selection.

Lemma toRubyType_registered (g : generator) (protoType : string)
    (def : MessageDefinition) :
  reg_MessageDefinition (reg g) protoType = Some def ->
  toRubyType g protoType
  = Ok ((if String.eqb (packageOf g (File def)) EmptyString then EmptyString
         else namespacePrefix (packageOf g (File def)))
        +:+ typeChain (reg g) def).
Proof.
  intros Hdef. unfold toRubyType. rewrite Hdef. unfold splitRubyConstants, namespacePrefix.
  by destruct (String.eqb (packageOf g (File def)) EmptyString).
Qed.

(** C1: a type whose defining file has the role "generate" resolves to the
    camel-cased chain of nested types with no namespace prefix; a type whose
    defining file is dependency-only with a non-empty package resolves to the
    camel-cased package segments joined by [::], followed by [::] and the
    chain (the prefix of package [foo.bar] is [Foo::Bar::]). *)
Theorem resolve_prefix_by_role (Version : string) (R : Registry)
    (req : CodeGeneratorRequest) (protoType : string) (def : MessageDefinition) :
  reg_MessageDefinition R protoType = Some def ->
  (generationRole (findProtoFilesToGenerate (newGenerator Version R req)) (File def)
   = generate ->
   toRubyType (findProtoFilesToGenerate (newGenerator Version R req)) protoType
   = Ok (typeChain R def)) /\
  (forall file : FileDescriptorProto,
     ProtoFile req !! File def = Some file ->
     generationRole (findProtoFilesToGenerate (newGenerator Version R req)) (File def)
     = dependency_only ->
     getString (file_Package file) <> EmptyString ->
     toRubyType (findProtoFilesToGenerate (newGenerator Version R req)) protoType
     = Ok (namespacePrefix (getString (file_Package file)) +:+ typeChain R def)) /\
  namespacePrefix "foo.bar" = "Foo::Bar::".
Proof.
  intros Hdef. split; [|split; [|reflexivity]].
  - intros Hrole%generationRole_generate.
    rewrite (toRubyType_registered _ _ def) by exact Hdef.
    by rewrite packageOf_generate.
  - intros file Hfile Hrole%generationRole_dependency Hpkg.
    rewrite (toRubyType_registered _ _ def) by exact Hdef.
    rewrite (packageOf_dependency _ _ _ _ file) by done.
    by apply String.eqb_neq in Hpkg as ->.
Qed.

Lemma resolve_prefix_by_role_witness :
  toRubyType (findProtoFilesToGenerate Sample.gen) ".hello.world.HelloRequest"
  = Ok "HelloRequest" /\
  toRubyType (findProtoFilesToGenerate Sample.gen) ".foo.bar.Outer.reply"
  = Ok "Foo::Bar::Outer::Reply".
Proof.
  split.
  - apply (proj1 (resolve_prefix_by_role "v1.0.0" Sample.registry Sample.request
                    ".hello.world.HelloRequest" Sample.helloRequest eq_refl)).
    reflexivity.
  - apply (proj1 (proj2 (resolve_prefix_by_role "v1.0.0" Sample.registry
                           Sample.request ".foo.bar.Outer.reply" Sample.reply eq_refl))
             Sample.dep); [reflexivity | reflexivity | discriminate].
Defined.

(** C10: a type whose defining file is dependency-only but declares an empty
    package resolves with no namespace prefix, as for a file with the role
    "generate": [toRubyType] decides on the package string recorded for the
    owning file, which it prefixes exactly when it is not empty. *)
Theorem resolve_prefix_by_package (Version : string) (R : Registry)
    (req : CodeGeneratorRequest) (protoType : string) (def : MessageDefinition) :
  reg_MessageDefinition R protoType = Some def ->
  toRubyType (findProtoFilesToGenerate (newGenerator Version R req)) protoType
  = Ok ((if String.eqb
              (packageOf (findProtoFilesToGenerate (newGenerator Version R req))
                         (File def)) EmptyString
         then EmptyString
         else namespacePrefix
                (packageOf (findProtoFilesToGenerate (newGenerator Version R req))
                           (File def)))
        +:+ typeChain R def) /\
  (forall file : FileDescriptorProto,
     ProtoFile req !! File def = Some file ->
     generationRole (findProtoFilesToGenerate (newGenerator Version R req)) (File def)
     = dependency_only ->
     getString (file_Package file) = EmptyString ->
     toRubyType (findProtoFilesToGenerate (newGenerator Version R req)) protoType
     = Ok (typeChain R def)).
Proof.
  intros Hdef. split.
  - by rewrite (toRubyType_registered _ _ def).
  - intros file Hfile Hrole%generationRole_dependency Hpkg.
    rewrite (toRubyType_registered _ _ def) by exact Hdef.
    rewrite (packageOf_dependency _ _ _ _ file) by done.
    by rewrite Hpkg.
Qed.

Lemma resolve_prefix_by_package_witness :
  generationRole (findProtoFilesToGenerate Sample.gen) (File Sample.plain)
  = dependency_only /\
  toRubyType (findProtoFilesToGenerate Sample.gen) ".Plain" = Ok "Plain".
Proof.
  split; [reflexivity|].
  apply (proj2 (resolve_prefix_by_package "v1.0.0" Sample.registry Sample.request
                  ".Plain" Sample.plain eq_refl) Sample.bare); reflexivity.
Defined.

(** C4, as stated: the "generate" subset has the duplicates of the request
    list collapsed. A name requested twice puts its file twice in
    [genFiles]. *)
Lemma genFiles_duplicates_counterexample :
  genFiles (findProtoFilesToGenerate
              (newGenerator "v1.0.0" Sample.registry Sample.requestTwice)) = [1; 1] /\
  ~ (forall req : CodeGeneratorRequest,
       NoDup (genFiles (findProtoFilesToGenerate
                          (newGenerator "v1.0.0" Sample.registry req)))).
Proof.
  split; [reflexivity|]. intros Hall. specialize (Hall Sample.requestTwice).
  apply NoDup_cons in Hall as [Hin _]. apply Hin. by left.
Qed.

(** C4, amended: [genFiles] holds, for each name of the request list in the
    order of that list, the files of the input set with that name in the order
    of the input set, and a name listed twice contributes its files twice; a
    file of the input set has the role "generate" exactly when its name is
    requested, every other file of the input set is dependency-only, and the
    package recorded for a file is empty for the role "generate" and the
    declared package otherwise. *)
Theorem findProtoFilesToGenerate_selects (Version : string) (R : Registry)
    (req : CodeGeneratorRequest) :
  genFiles (findProtoFilesToGenerate (newGenerator Version R req))
  = flat_map (fun name => filesNamed name (rangeFiles 0 (ProtoFile req)))
             (FileToGenerate req) /\
  forall (p : fileptr) (file : FileDescriptorProto),
    ProtoFile req !! p = Some file ->
    (generationRole (findProtoFilesToGenerate (newGenerator Version R req)) p = generate
     <-> In (getString (file_Name file)) (FileToGenerate req)) /\
    (generationRole (findProtoFilesToGenerate (newGenerator Version R req)) p
     = dependency_only
     <-> ~ In (getString (file_Name file)) (FileToGenerate req)) /\
    fileToGoPackageName (findProtoFilesToGenerate (newGenerator Version R req)) !! p
    = Some (match generationRole
                    (findProtoFilesToGenerate (newGenerator Version R req)) p with
            | generate => EmptyString
            | dependency_only => getString (file_Package file)
            end).
Proof.
  split; [apply genFiles_selected|]. intros p file Hfile.
  assert (In p (genFiles (findProtoFilesToGenerate (newGenerator Version R req)))
          <-> In (getString (file_Name file)) (FileToGenerate req)) as Hin.
  { rewrite In_genFiles. split; [|by eauto].
    intros (f & Hf & Hname). congruence. }
  split; [|split].
  - by rewrite generationRole_generate.
  - by rewrite generationRole_dependency, Hin.
  - rewrite (package_recorded _ _ _ p file Hfile). unfold generationRole.
    by destruct (fileDescSliceContains _ p).
Qed.

Lemma findProtoFilesToGenerate_selects_witness :
  ProtoFile Sample.requestTwice !! 1 = Some Sample.dep /\
  fileToGoPackageName
    (findProtoFilesToGenerate
       (newGenerator "v1.0.0" Sample.registry Sample.requestTwice)) !! 1
  = Some (match generationRole
                  (findProtoFilesToGenerate
                     (newGenerator "v1.0.0" Sample.registry Sample.requestTwice)) 1 with
          | generate => EmptyString
          | dependency_only => getString (file_Package Sample.dep)
          end).
Proof.
  split; [reflexivity|].
  apply (proj2 (findProtoFilesToGenerate_selects "v1.0.0" Sample.registry
                  Sample.requestTwice) 1 Sample.dep eq_refl).
Defined.

(** ** The emission monad *)

Lemma bind_Ok {A B} (m : Emit A) (k : A -> Emit B) (b b' : Buffer) (a : A) :
  m b = Ok (a, b') -> bind m k b = k a b'.
Proof. unfold bind. by intros ->. Qed.

Lemma bind_Panic {A B} (m : Emit A) (k : A -> Emit B) (b : Buffer) (msg : string) :
  m b = Panic msg -> bind m k b = Panic msg.
Proof. unfold bind. by intros ->. Qed.

Lemma bind_print {B} (line : string) (k : unit -> Emit B) (b : Buffer) :
  bind (print line) k b = k tt (b ++ [line]).
Proof. reflexivity. Qed.

Lemma bind_ret {A B} (a : A) (k : A -> Emit B) (b : Buffer) :
  bind (ret a) k b = k a b.
Proof. reflexivity. Qed.

Lemma bind_printed {B} (r : result (list string)) (k : unit -> Emit B) (b : Buffer) :
  bind (printed r) k b
  = match r with
    | Ok lines => k tt (b ++ lines)
    | Panic msg => Panic msg
    end.
Proof. unfold bind, printed. by destruct r. Qed.

Lemma forEach_printed {A} (f : A -> result (list string)) (body : A -> Emit unit)
    (xs : list A) (b : Buffer) :
  (forall x b, body x b = printed (f x) b) ->
  forEach xs body b = printed (collect f xs) b.
Proof.
  intros Hbody. revert b. induction xs as [|x xs IH]; intros b.
  - cbn. by rewrite app_nil_r.
  - cbn [forEach collect]. unfold bind. rewrite Hbody. unfold printed at 1.
    destruct (f x) as [lines|msg]; [|done].
    rewrite IH. unfold printed.
    destruct (collect f xs) as [lines'|msg]; [|done]. by rewrite app_assoc.
Qed.

Lemma forEachIndexed_printed {A} (f : Z -> A -> result (list string))
    (body : Z -> A -> Emit unit) (xs : list A) (i : Z) (b : Buffer) :
  (forall i x b, body i x b = printed (f i x) b) ->
  forEachIndexed i xs body b = printed (collectIndexed i f xs) b.
Proof.
  intros Hbody. revert i b. induction xs as [|x xs IH]; intros i b.
  - cbn. by rewrite app_nil_r.
  - cbn [forEachIndexed collectIndexed]. unfold bind. rewrite Hbody. unfold printed at 1.
    destruct (f i x) as [lines|msg]; [|done].
    rewrite IH. unfold printed.
    destruct (collectIndexed (i + 1) f xs) as [lines'|msg]; [|done].
    by rewrite app_assoc.
Qed.

Section Emission.
Context `{UnicodeTables}.

Lemma forEachWith_step {A S} (x : A) (rest : list A) (body : S -> A -> Emit S)
    (s s' : S) (b b' : Buffer) :
  body s x b = Ok (s', b') ->
  forEachWith (x :: rest) body s b = forEachWith rest body s' b'.
Proof. cbn [forEachWith]. apply bind_Ok. Qed.

Lemma openModules_run (modules : list string) (indent : Z) (b : Buffer) :
  openModules indent modules b
  = Ok ((indent + Z.of_nat (length modules))%Z, b ++ openLines indent modules).
Proof.
  unfold openModules. revert indent b.
  induction modules as [|m modules IH]; intros indent b.
  - cbn [forEachWith openLines length Z.of_nat]. unfold ret.
    by rewrite app_nil_r, Z.add_0_r.
  - erewrite forEachWith_step by reflexivity. rewrite IH.
    cbn [openLines length]. rewrite <- app_assoc. cbn [app]. do 2 f_equal. lia.
Qed.

Lemma closeModules_run (modules : list string) (indent : Z) (b : Buffer) :
  closeModules indent modules b
  = Ok ((indent - Z.of_nat (length modules))%Z, b ++ closeLines indent modules).
Proof.
  unfold closeModules. revert indent b.
  induction modules as [|m modules IH]; intros indent b.
  - cbn [forEachWith closeLines length Z.of_nat]. unfold ret.
    by rewrite app_nil_r, Z.sub_0_r.
  - erewrite forEachWith_step by reflexivity. rewrite IH.
    cbn [closeLines length]. rewrite <- app_assoc. cbn [app]. do 2 f_equal. lia.
Qed.

Lemma emitMethod_run (g : generator) (indent : Z) (method : MethodDescriptorProto)
    (b : Buffer) :
  emitMethod g indent method b = printed (methodLines g indent method) b.
Proof.
  unfold emitMethod, methodLines, printed, bind, lift, print, rpcLine.
  destruct (toRubyType g (getString (method_InputType method))); [|done].
  destruct (toRubyType g (getString (method_OutputType method))); done.
Qed.

Lemma emitService_run (g : generator) (indent : Z) (pkgName : string)
    (nServices i : Z) (service : ServiceDescriptorProto) (b : Buffer) :
  emitService g indent pkgName nServices i service b
  = printed (serviceLines g indent pkgName nServices i service) b.
Proof.
  unfold emitService, serviceLines, serviceHead, serviceTail. cbv zeta.
  rewrite bind_print.
  assert (forall (k : unit -> Emit unit) b0,
             bind (if negb (String.eqb pkgName EmptyString)
                   then print (indentation_String indent +:+ "  package '"
                               +:+ pkgName +:+ "'")
                   else ret tt) k b0
             = k tt (b0 ++ (if negb (String.eqb pkgName EmptyString)
                            then [indentation_String indent +:+ "  package '"
                                  +:+ pkgName +:+ "'"]
                            else []))) as Hpkg.
  { intros k b0. destruct (negb (String.eqb pkgName EmptyString)).
    - apply bind_print.
    - rewrite bind_ret. by rewrite app_nil_r. }
  rewrite Hpkg, bind_print.
  unfold bind at 1.
  rewrite (forEach_printed (methodLines g indent)) by (intros; apply emitMethod_run).
  unfold printed.
  destruct (collect (methodLines g indent) (service_Method service)) as [entries|msg];
    [|done].
  rewrite !bind_print.
  destruct (negb (String.eqb pkgName EmptyString)), (i <? nServices - 1)%Z;
    unfold print, ret; repeat (rewrite <- app_assoc; cbn [app]);
    rewrite ?app_nil_r; reflexivity.
Qed.

(** [generateRubyCode] prints the header, opens the modules, prints the
    services and closes the modules, and panics when a service does. *)
Lemma emitRubyCode_run (g : generator) (file : FileDescriptorProto)
    (pbFileRelativePath : string) (b : Buffer) :
  emitRubyCode g file pbFileRelativePath b
  = match servicesLines g file with
    | Panic msg => Panic msg
    | Ok body =>
        Ok (0%Z,
            b ++ headerLines (version g) pbFileRelativePath
              ++ openLines 0 (modulesOf file)
              ++ body
              ++ closeLines (Z.of_nat (length (modulesOf file))) (modulesOf file))
    end.
Proof.
  unfold emitRubyCode, servicesLines, headerLines. cbv zeta.
  rewrite !bind_print.
  erewrite bind_Ok by apply openModules_run.
  unfold bind at 1.
  rewrite (forEachIndexed_printed
             (serviceLines g (0 + Z.of_nat (length (modulesOf file)))
                (getString (file_Package file))
                (Z.of_nat (length (file_Service file)))))
    by (intros; apply emitService_run).
  rewrite Z.add_0_l. unfold printed.
  destruct (collectIndexed 0 _ (file_Service file)) as [body|msg]; [|done].
  rewrite closeModules_run. rewrite Z.sub_diag.
  rewrite <- !app_assoc. reflexivity.
Qed.
End Emission.

(** ** The lines of a generated file *)


Lemma collect_Forall {A} (f : A -> result (list string)) (Q : string -> Prop)
    (xs : list A) (lines : list string) :
  (forall x ls, f x = Ok ls -> Forall Q ls) ->
  collect f xs = Ok lines -> Forall Q lines.
Proof.
  intros Hf. revert lines. induction xs as [|x xs IH]; intros lines; cbn [collect].
  - intros [= <-]. constructor.
  - destruct (f x) as [ls|] eqn:Hx; [|done].
    destruct (collect f xs) as [ls'|]; [|done]. intros [= <-].
    apply Forall_app. split; eauto.
Qed.

Lemma collectIndexed_Forall {A} (f : Z -> A -> result (list string))
    (Q : string -> Prop) (xs : list A) (i : Z) (lines : list string) :
  (forall i x ls, f i x = Ok ls -> Forall Q ls) ->
  collectIndexed i f xs = Ok lines -> Forall Q lines.
Proof.
  intros Hf. revert i lines.
  induction xs as [|x xs IH]; intros i lines; cbn [collectIndexed].
  - intros [= <-]. constructor.
  - destruct (f i x) as [ls|] eqn:Hx; [|done].
    destruct (collectIndexed (i + 1) f xs) as [ls'|] eqn:Hrest; [|done].
    intros [= <-]. apply Forall_app. split; eauto.
Qed.


Lemma collect_Panic_In {A} (f : A -> result (list string)) (xs : list A) (x : A)
    (msg : string) :
  In x xs -> f x = Panic msg -> exists msg', collect f xs = Panic msg'.
Proof.
  induction xs as [|x0 xs IH]; cbn [In collect]; [tauto|].
  intros [->|Hin] Hx.
  - rewrite Hx. eauto.
  - destruct (f x0); [|eauto].
    destruct (IH Hin Hx) as [msg' ->]. eauto.
Qed.

Lemma collectIndexed_Panic_In {A} (f : Z -> A -> result (list string)) (xs : list A)
    (i : Z) (x : A) :
  In x xs -> (forall j, exists msg, f j x = Panic msg) ->
  exists msg', collectIndexed i f xs = Panic msg'.
Proof.
  revert i. induction xs as [|x0 xs IH]; intros i; cbn [In collectIndexed]; [tauto|].
  intros [->|Hin] Hx.
  - destruct (Hx i) as [msg ->]. eauto.
  - destruct (f i x0); [|eauto].
    destruct (IH (i + 1)%Z Hin Hx) as [msg' ->]. eauto.
Qed.


Section FileLines.
Context `{UnicodeTables}.

Lemma emitRubyCode_Ok (g : generator) (file : FileDescriptorProto)
    (pbFileRelativePath : string) (b b' : Buffer) (z : Z) :
  emitRubyCode g file pbFileRelativePath b = Ok (z, b') ->
  exists body,
    servicesLines g file = Ok body /\ z = 0%Z /\
    b' = b ++ headerLines (version g) pbFileRelativePath
           ++ openLines 0 (modulesOf file)
           ++ body
           ++ closeLines (Z.of_nat (length (modulesOf file))) (modulesOf file).
Proof.
  rewrite emitRubyCode_run.
  destruct (servicesLines g file) as [body|]; [|discriminate].
  intros Heq. exists body. split; [reflexivity|].
  split; congruence.
Qed.

Lemma serviceLines_Ok (g : generator) (indent : Z) (pkgName : string)
    (nServices i : Z) (service : ServiceDescriptorProto) (lines : list string) :
  serviceLines g indent pkgName nServices i service = Ok lines ->
  exists entries,
    collect (methodLines g indent) (service_Method service) = Ok entries /\
    lines = serviceHead indent pkgName (getString (service_Name service))
            ++ entries
            ++ serviceTail indent (getString (service_Name service)) nServices i.
Proof.
  unfold serviceLines.
  destruct (collect (methodLines g indent) (service_Method service)) as [entries|];
    [|discriminate].
  intros Heq. exists entries. split; congruence.
Qed.


Lemma methodLines_Ok (g : generator) (indent : Z) (method : MethodDescriptorProto)
    (lines : list string) :
  methodLines g indent method = Ok lines ->
  exists rpcInput rpcOutput : string,
    toRubyType g (getString (method_InputType method)) = Ok rpcInput /\
    toRubyType g (getString (method_OutputType method)) = Ok rpcOutput /\
    lines = [rpcLine indent (getString (method_Name method)) rpcInput rpcOutput].
Proof.
  unfold methodLines.
  destruct (toRubyType g (getString (method_InputType method))) as [rpcInput|];
    [|discriminate].
  destruct (toRubyType g (getString (method_OutputType method))) as [rpcOutput|];
    [|discriminate].
  intros Heq. exists rpcInput, rpcOutput. repeat split; congruence.
Qed.

End FileLines.

(** ** Namespace nesting *)

Lemma indentation_String_nat (k : nat) :
  (2 * Z.of_nat k <= maxInt)%Z ->
  indentation_String (Z.of_nat k) = strings.repeat "  " k.
Proof.
  intros Hk. unfold indentation_String, strings.Repeat.
  replace (Z.of_nat k <? 0)%Z with false by (symmetry; apply Z.ltb_ge; lia).
  change (Z.of_nat (String.length "  ")) with 2%Z.
  replace (maxInt <? 2 * Z.of_nat k)%Z with false by (symmetry; apply Z.ltb_ge; lia).
  by rewrite Nat2Z.id.
Qed.

Lemma trimSpaces_repeat (k : nat) (s : string) :
  trimSpaces (strings.repeat "  " k +:+ s) = trimSpaces s.
Proof.
  induction k as [|k IH]; [reflexivity|].
  cbn [strings.repeat]. rewrite !sapp_cons. cbn [trimSpaces Ascii.eqb]. exact IH.
Qed.

Lemma leadingSpaces_repeat (k : nat) (s : string) :
  leadingSpaces (strings.repeat "  " k +:+ s) = 2 * k + leadingSpaces s.
Proof.
  induction k as [|k IH]; [reflexivity|].
  cbn [strings.repeat]. rewrite !sapp_cons, sapp_nil_l.
  change (S (S (leadingSpaces (strings.repeat "  " k +:+ s)))
          = 2 * S k + leadingSpaces s).
  rewrite IH. lia.
Qed.

Lemma trimSpaces_indent (k : nat) (s : string) :
  (2 * Z.of_nat k <= maxInt)%Z ->
  trimSpaces (indentation_String (Z.of_nat k) +:+ s) = trimSpaces s.
Proof. intros Hk. rewrite indentation_String_nat by done. apply trimSpaces_repeat. Qed.

Lemma leadingSpaces_indent (k : nat) (s : string) :
  (2 * Z.of_nat k <= maxInt)%Z ->
  leadingSpaces (indentation_String (Z.of_nat k) +:+ s) = 2 * k + leadingSpaces s.
Proof. intros Hk. rewrite indentation_String_nat by done. apply leadingSpaces_repeat. Qed.

Lemma length_openLines (indent : Z) (modules : list string) :
  length (openLines indent modules) = length modules.
Proof.
  revert indent. induction modules as [|m modules IH]; intros indent; [done|].
  cbn [openLines length]. by rewrite IH.
Qed.

Lemma length_closeLines (indent : Z) (modules : list string) :
  length (closeLines indent modules) = length modules.
Proof.
  revert indent. induction modules as [|m modules IH]; intros indent; [done|].
  cbn [closeLines length]. by rewrite IH.
Qed.

Lemma countLines_app (P : string -> bool) (l1 l2 : list string) :
  countLines P (l1 ++ l2) = countLines P l1 + countLines P l2.
Proof. unfold countLines. by rewrite List.filter_app, length_app. Qed.

Lemma countLines_none (P : string -> bool) (l : list string) :
  Forall (fun line => P line = false) l -> countLines P l = 0.
Proof.
  unfold countLines. induction 1 as [|x l Hx _ IH]; [done|].
  cbn [List.filter]. by rewrite Hx.
Qed.

Lemma countLines_all (P : string -> bool) (l : list string) :
  Forall (fun line => P line = true) l -> countLines P l = length l.
Proof.
  unfold countLines. induction 1 as [|x l Hx _ IH]; [done|].
  cbn [List.filter]. rewrite Hx. cbn [length]. by rewrite IH.
Qed.

Lemma plainLine_text (n k : nat) (text : string) :
  (2 * Z.of_nat k <= maxInt)%Z ->
  strings.HasPrefix (trimSpaces text) "module " = false ->
  String.eqb (trimSpaces text) "end" = false ->
  plainLine n (indentation_String (Z.of_nat k) +:+ text).
Proof.
  intros Hk Hopen Hend. unfold plainLine, isOpenLine, isCloseLine.
  by rewrite trimSpaces_indent, Hopen, Hend.
Qed.

Lemma plainLine_class_end (n : nat) :
  (2 * Z.of_nat n <= maxInt)%Z ->
  plainLine n (indentation_String (Z.of_nat n) +:+ "end").
Proof.
  intros Hn. unfold plainLine, isOpenLine, isCloseLine.
  rewrite trimSpaces_indent, leadingSpaces_indent by done. split; [reflexivity|].
  apply andb_false_iff. right. apply Nat.ltb_ge.
  change (leadingSpaces "end") with 0. lia.
Qed.

Lemma plainLine_empty (n : nat) : plainLine n EmptyString.
Proof. by split. Qed.

Ltac plain_lines :=
  repeat (apply List.Forall_cons;
          [first [ by apply plainLine_class_end | apply plainLine_empty
                 | by apply plainLine_text | by split ]|]);
  apply List.Forall_nil.

Lemma plainLine_header (n : nat) (version pbFileRelativePath : string) :
  Forall (plainLine n) (headerLines version pbFileRelativePath).
Proof. unfold headerLines. plain_lines. Qed.

Lemma openLines_open (n k : nat) (modules : list string) :
  (2 * Z.of_nat (k + length modules) <= maxInt)%Z ->
  Forall (fun line => isOpenLine line = true /\ isCloseLine n line = false)
         (openLines (Z.of_nat k) modules).
Proof.
  revert k. induction modules as [|m modules IH]; intros k Hk; [constructor|].
  cbn [length] in Hk. cbn [openLines]. constructor.
  - unfold isOpenLine, isCloseLine. rewrite !trimSpaces_indent by lia. split.
    + change (trimSpaces ("module " +:+ m)) with ("module " +:+ m).
      change (strings.HasPrefix ("module " +:+ m) "module ")
        with (strings.HasPrefix m EmptyString).
      apply HasPrefix_empty.
    + reflexivity.
  - replace (Z.of_nat k + 1)%Z with (Z.of_nat (S k)) by lia. apply IH. lia.
Qed.

Lemma closeLines_close (n k : nat) (modules : list string) :
  (2 * Z.of_nat n <= maxInt)%Z ->
  length modules <= k -> k <= n ->
  Forall (fun line => isOpenLine line = false /\ isCloseLine n line = true)
         (closeLines (Z.of_nat k) modules).
Proof.
  intros Hn. revert k.
  induction modules as [|m modules IH]; intros k Hlen Hk; [constructor|].
  cbn [length] in Hlen. destruct k as [|k]; [lia|].
  cbn [closeLines]. replace (Z.of_nat (S k) - 1)%Z with (Z.of_nat k) by lia.
  constructor.
  - unfold isOpenLine, isCloseLine.
    rewrite !trimSpaces_indent, leadingSpaces_indent by lia. split; [reflexivity|].
    apply andb_true_iff. split; [reflexivity|].
    apply Nat.ltb_lt. change (leadingSpaces "end") with 0. lia.
  - apply IH; lia.
Qed.

(** A text made of lines without a newline is cut back into these lines. *)
Lemma textLinesFrom_line (line cur rest : string) :
  noNewline line = true ->
  textLinesFrom cur (line +:+ newline +:+ rest)
  = (cur +:+ line) :: textLinesFrom EmptyString rest.
Proof.
  unfold noNewline. revert cur. induction line as [|c line IH]; intros cur Hline.
  - rewrite sapp_nil_l, sapp_nil_r. reflexivity.
  - cbn [allBytes] in Hline. apply andb_true_iff in Hline as [Hc%negb_true_iff Hline].
    rewrite sapp_cons. cbn [textLinesFrom]. rewrite Hc, IH by done.
    by rewrite sapp_assoc.
Qed.

Lemma textLines_Buffer_String (b : Buffer) :
  forallb noNewline b = true -> textLines (Buffer_String b) = b.
Proof.
  unfold textLines. induction b as [|line b IH]; [reflexivity|].
  cbn [forallb Buffer_String fold_right]. intros [Hline Hb]%andb_true_iff.
  rewrite textLinesFrom_line by done. rewrite sapp_nil_l. f_equal. by apply IH.
Qed.

Section Namespaces.
Context `{UnicodeTables}.

Lemma plainLine_service (g : generator) (n : nat) (pkgName : string)
    (nServices i : Z) (service : ServiceDescriptorProto) (lines : list string) :
  (2 * Z.of_nat n <= maxInt)%Z ->
  serviceLines g (Z.of_nat n) pkgName nServices i service = Ok lines ->
  Forall (plainLine n) lines.
Proof.
  intros Hn (entries & Hentries & ->)%serviceLines_Ok.
  apply Forall_app. split; [|apply Forall_app; split].
  - unfold serviceHead. apply Forall_app. split; [|apply Forall_app; split].
    + plain_lines.
    + destruct (negb (String.eqb pkgName EmptyString)); plain_lines.
    + plain_lines.
  - eapply collect_Forall; [|exact Hentries].
    intros method ls (rpcInput & rpcOutput & _ & _ & ->)%methodLines_Ok.
    unfold rpcLine. plain_lines.
  - unfold serviceTail. apply Forall_app. split.
    + plain_lines.
    + destruct (i <? nServices - 1)%Z; plain_lines.
Qed.

(** The lines printed for a file of [n] namespace segments: the header, [n]
    open-namespace lines, the services, [n] close-namespace lines. *)
Lemma namespace_lines_printed (g : generator) (file : FileDescriptorProto)
    (pbFileRelativePath : string) (emitted : list string) (z : Z) :
  (2 * Z.of_nat (length (modulesOf file)) <= maxInt)%Z ->
  emitRubyCode g file pbFileRelativePath [] = Ok (z, emitted) ->
  (exists body : list string,
      emitted = headerLines (version g) pbFileRelativePath
                ++ openLines 0 (modulesOf file)
                ++ body
                ++ closeLines (Z.of_nat (length (modulesOf file))) (modulesOf file)) /\
  countLines isOpenLine emitted = length (modulesOf file) /\
  countLines (isCloseLine (length (modulesOf file))) emitted
  = length (modulesOf file) /\
  z = 0%Z.
Proof.
  intros Hmax (body & Hbody & -> & ->)%emitRubyCode_Ok.
  set (n := length (modulesOf file)) in *.
  assert (Forall (plainLine n) body) as Hplain.
  { eapply collectIndexed_Forall; [|exact Hbody].
    intros i service ls. by apply plainLine_service. }
  pose proof (plainLine_header n (version g) pbFileRelativePath) as Hheader.
  assert (Forall (fun line => isOpenLine line = true /\ isCloseLine n line = false)
                 (openLines 0 (modulesOf file))) as Hopen.
  { apply (openLines_open n 0 (modulesOf file)). fold n. lia. }
  pose proof (closeLines_close n n (modulesOf file) Hmax (le_n _) (le_n _)) as Hclose.
  cbn [app]. split; [by exists body|].
  split; [|split; [|reflexivity]].
  - rewrite !countLines_app.
    rewrite (countLines_none _ (headerLines _ _))
      by (eapply Forall_impl; [exact Hheader|]; by intros ? []).
    rewrite (countLines_all _ (openLines _ _))
      by (eapply Forall_impl; [exact Hopen|]; by intros ? []).
    rewrite (countLines_none _ body)
      by (eapply Forall_impl; [exact Hplain|]; by intros ? []).
    rewrite (countLines_none _ (closeLines _ _))
      by (eapply Forall_impl; [exact Hclose|]; by intros ? []).
    rewrite length_openLines. lia.
  - rewrite !countLines_app.
    rewrite (countLines_none _ (headerLines _ _))
      by (eapply Forall_impl; [exact Hheader|]; by intros ? []).
    rewrite (countLines_none _ (openLines _ _))
      by (eapply Forall_impl; [exact Hopen|]; by intros ? []).
    rewrite (countLines_none _ body)
      by (eapply Forall_impl; [exact Hplain|]; by intros ? []).
    rewrite (countLines_all _ (closeLines _ _))
      by (eapply Forall_impl; [exact Hclose|]; by intros ? []).
    rewrite length_closeLines. lia.
Qed.

(** C5, amended: for a file whose namespace segment list has length [n],
    [generateRubyCode] prints exactly [n] open-namespace lines and exactly [n]
    close-namespace lines, and the depth counter, which the open sequence
    raises by [n], is back at its value from before the open sequence after
    the close sequence; the emitted text is these printed lines, each followed
    by a newline, so that, whenever no printed line holds a newline itself,
    the lines of the text are the printed lines and the text contains exactly
    [n] open-namespace and exactly [n] close-namespace lines. *)
Theorem namespaces_balanced (g : generator) (file : FileDescriptorProto)
    (pbFileRelativePath : string) (emitted : list string) (z : Z) :
  (2 * Z.of_nat (length (modulesOf file)) <= maxInt)%Z ->
  emitRubyCode g file pbFileRelativePath [] = Ok (z, emitted) ->
  generateRubyCode g file pbFileRelativePath = Ok (Buffer_String emitted) /\
  countLines isOpenLine emitted = length (modulesOf file) /\
  countLines (isCloseLine (length (modulesOf file))) emitted
  = length (modulesOf file) /\
  z = 0%Z /\
  (forall (depth : Z) (b0 : Buffer),
      exists b1 : Buffer,
        openModules depth (modulesOf file) b0
        = Ok ((depth + Z.of_nat (length (modulesOf file)))%Z, b1) /\
        forall b2 : Buffer,
          exists b3 : Buffer,
            closeModules (depth + Z.of_nat (length (modulesOf file)))
                         (modulesOf file) b2
            = Ok (depth, b3)) /\
  (forallb noNewline emitted = true ->
   textLines (Buffer_String emitted) = emitted /\
   countLines isOpenLine (textLines (Buffer_String emitted))
   = length (modulesOf file) /\
   countLines (isCloseLine (length (modulesOf file)))
              (textLines (Buffer_String emitted))
   = length (modulesOf file)).
Proof.
  intros Hmax Hemit.
  destruct (namespace_lines_printed g file pbFileRelativePath emitted z Hmax Hemit)
    as (_ & Hopen & Hclose & Hz).
  split; [unfold generateRubyCode; by rewrite Hemit|].
  split; [exact Hopen|]. split; [exact Hclose|]. split; [exact Hz|]. split.
  - intros depth b0. eexists. split; [apply openModules_run|].
    intros b2. eexists. rewrite closeModules_run. do 2 f_equal. lia.
  - intros Hlines. rewrite textLines_Buffer_String by exact Hlines. by split.
Qed.
End Namespaces.

(** C5, as stated, on the emitted text: a namespace segment that holds a
    newline gives more lines of text than printed lines. With the
    [ruby_package] option ["A\nmodule B"] there is one segment, and the text
    has two lines that open a namespace. *)
Lemma namespaces_text_counterexample :
  length (modulesOf injected) = 1 /\
  (exists text : string,
      @generateRubyCode latin1Tables
        (findProtoFilesToGenerate
           (newGenerator "v1.0.0" Sample.registry requestInjected))
        injected "inj_pb.rb" = Ok text /\
      List.filter isOpenLine (textLines text) = ["module A"; "module B"] /\
      countLines isOpenLine (textLines text) = 2) /\
  ~ (forall (g : generator) (file : FileDescriptorProto) (pb text : string),
        @generateRubyCode latin1Tables g file pb = Ok text ->
        countLines isOpenLine (textLines text) = length (modulesOf file)).
Proof.
  split; [reflexivity|]. split.
  - eexists. split; [vm_compute; reflexivity|]. split; vm_compute; reflexivity.
  - intros Hall.
    specialize (Hall (findProtoFilesToGenerate
                        (newGenerator "v1.0.0" Sample.registry requestInjected))
                     injected "inj_pb.rb" _ eq_refl).
    vm_compute in Hall. discriminate.
Qed.

Lemma namespaces_balanced_witness :
  @generateRubyCode latin1Tables (findProtoFilesToGenerate Sample.gen) Sample.hello
    "service_pb.rb" = Ok (Buffer_String Sample.helloLines) /\
  textLines (Buffer_String Sample.helloLines) = Sample.helloLines /\
  countLines isOpenLine (textLines (Buffer_String Sample.helloLines)) = 2 /\
  countLines (isCloseLine 2) (textLines (Buffer_String Sample.helloLines)) = 2.
Proof.
  destruct (@namespaces_balanced latin1Tables
              (findProtoFilesToGenerate Sample.gen) Sample.hello "service_pb.rb"
              Sample.helloLines 0 ltac:(vm_compute; discriminate) eq_refl)
    as (Htext & _ & _ & _ & _ & Hlines).
  split; [exact Htext|]. exact (Hlines eq_refl).
Defined.


(** ** File names: [noExtension] *)

Lemma take_drop (i : nat) (s : string) : strings.take i s +:+ strings.drop i s = s.
Proof.
  revert i. induction s as [|c s IH]; intros [|i]; try reflexivity.
  cbn [strings.take strings.drop]. by rewrite sapp_cons, IH.
Qed.

Lemma length_drop (i : nat) (s : string) :
  String.length (strings.drop i s) = String.length s - i.
Proof.
  revert i. induction s as [|c s IH]; intros [|i]; try reflexivity.
  cbn [strings.drop String.length]. by rewrite IH.
Qed.

Lemma drop_all (s : string) : strings.drop (String.length s) s = EmptyString.
Proof. induction s as [|c s IH]; [reflexivity|]. exact IH. Qed.

Lemma extLoop_suffix (path : string) (n : nat) :
  exists i, i <= String.length path /\ filepath.extLoop path n = strings.drop i path.
Proof.
  induction n as [|n IH]; cbn [filepath.extLoop].
  - exists (String.length path). split; [lia|]. by rewrite drop_all.
  - destruct (String.get n path) as [c|] eqn:Hget.
    + destruct (Ascii.eqb c "/").
      * exists (String.length path). split; [lia|]. by rewrite drop_all.
      * destruct (Ascii.eqb c "."); [|exact IH].
        destruct (Nat.le_gt_cases n (String.length path)) as [Hle|Hgt].
        -- by exists n.
        -- exists (String.length path). split; [lia|].
           rewrite drop_all. clear -Hgt.
           assert (forall s i, String.length s <= i -> strings.drop i s = EmptyString)
             as Hdrop.
           { induction s as [|c s IHs]; intros [|i] Hi; try reflexivity.
             - cbn in Hi. lia.
             - cbn [strings.drop]. apply IHs. cbn in Hi. lia. }
           apply Hdrop. lia.
    + exists (String.length path). split; [lia|]. by rewrite drop_all.
Qed.

Lemma TrimSuffix_drop (path : string) (i : nat) :
  i <= String.length path ->
  strings.TrimSuffix path (strings.drop i path) = strings.take i path.
Proof.
  intros Hi. unfold strings.TrimSuffix, strings.HasSuffix.
  rewrite length_drop.
  replace (String.length path - (String.length path - i)) with i by lia.
  rewrite String.eqb_refl, andb_true_r.
  replace (String.length path - i <=? String.length path) with true; [done|].
  symmetry. apply Nat.leb_le. lia.
Qed.

(** [noExtension] removes the extension and nothing else. *)
Lemma noExtension_Ext (path : string) :
  noExtension path +:+ filepath.Ext path = path.
Proof.
  unfold noExtension, filepath.Ext.
  destruct (extLoop_suffix path (String.length path)) as (i & Hi & ->).
  rewrite TrimSuffix_drop by done. apply take_drop.
Qed.

(** ** [Generate] *)

Section GenerateFiles.
Context `{UnicodeTables}.

Lemma generateFile_Ok (g : generator) (resp resp' : CodeGeneratorResponse)
    (f : fileptr) :
  generateFile g resp f = Ok resp' ->
  exists respFile,
    resp_File resp' = resp_File resp ++ [respFile] /\ generated g f respFile.
Proof.
  unfold generateFile, generateRubyCode, filePath.
  destruct (ProtoFile (genReq g) !! f) as [file|] eqn:Hfile; [|discriminate].
  destruct (file_Name file) as [path|] eqn:Hpath; [|discriminate].
  destruct (emitRubyCode g file _ []) as [[z b]|] eqn:Hemit; [|discriminate].
  intros [= <-]. eexists. split; [reflexivity|].
  apply emitRubyCode_Ok in Hemit as (body & _ & _ & ->).
  exists file, path. eexists. repeat (split; [done|]).
  cbn [resp_Content app]. unfold headerLines. reflexivity.
Qed.

Lemma generateFiles_Ok (g : generator) (fs : list fileptr)
    (resp resp' : CodeGeneratorResponse) :
  generateFiles g resp fs = Ok resp' ->
  exists new,
    resp_File resp' = resp_File resp ++ new /\ Forall2 (generated g) fs new.
Proof.
  revert resp. induction fs as [|f fs IH]; intros resp; cbn [generateFiles].
  - intros [= <-]. exists []. split; [by rewrite app_nil_r | constructor].
  - destruct (generateFile g resp f) as [resp1|] eqn:Hf; [|discriminate].
    intros Hrest. apply generateFile_Ok in Hf as (respFile & Hresp1 & Hgen).
    apply IH in Hrest as (new & Hresp' & Hnew).
    exists (respFile :: new). split; [|by constructor].
    rewrite Hresp', Hresp1. by rewrite <- app_assoc.
Qed.

Lemma generateFiles_Panic (g : generator) (fs : list fileptr) (f : fileptr) :
  In f fs ->
  (forall resp, exists msg, generateFile g resp f = Panic msg) ->
  forall resp, exists msg, generateFiles g resp fs = Panic msg.
Proof.
  intros Hin Hf. induction fs as [|f0 fs IH]; intros resp; [destruct Hin|].
  cbn [generateFiles]. destruct Hin as [->|Hin].
  - destruct (Hf resp) as [msg ->]. eauto.
  - destruct (generateFile g resp f0); [by apply IH | eauto].
Qed.

Lemma methodLines_unresolved (g : generator) (indent : Z)
    (method : MethodDescriptorProto) :
  reg_MessageDefinition (reg g) (getString (method_InputType method)) = None \/
  reg_MessageDefinition (reg g) (getString (method_OutputType method)) = None ->
  exists msg, methodLines g indent method = Panic msg.
Proof.
  unfold methodLines, toRubyType. intros Hnone.
  destruct (reg_MessageDefinition (reg g) (getString (method_InputType method)));
    [|eauto].
  destruct Hnone as [Hin| ->]; [discriminate | eauto].
Qed.

Lemma generateFile_unresolved (g : generator) (f : fileptr)
    (file : FileDescriptorProto) (service : ServiceDescriptorProto)
    (method : MethodDescriptorProto) :
  ProtoFile (genReq g) !! f = Some file ->
  In service (file_Service file) ->
  In method (service_Method service) ->
  reg_MessageDefinition (reg g) (getString (method_InputType method)) = None \/
  reg_MessageDefinition (reg g) (getString (method_OutputType method)) = None ->
  forall resp, exists msg, generateFile g resp f = Panic msg.
Proof.
  intros Hfile Hservice Hmethod Hnone resp.
  unfold generateFile, generateRubyCode, filePath. rewrite Hfile.
  destruct (file_Name file) as [path|]; [|eauto].
  rewrite emitRubyCode_run.
  assert (exists msg, servicesLines g file = Panic msg) as [msg ->]; [|eauto].
  unfold servicesLines. apply (collectIndexed_Panic_In _ _ _ service Hservice).
  intros j. unfold serviceLines.
  destruct (methodLines_unresolved g (Z.of_nat (length (modulesOf file))) method Hnone)
    as [msg Hmsg].
  destruct (collect_Panic_In _ _ _ _ Hmethod Hmsg) as [msg' ->]. eauto.
Qed.

(** C3: [toRubyType] on a type reference that is not in the registry panics
    ("could not find message for ..."), and when a method of a service of a
    file to generate has such an input or output type, [Generate] panics:
    there is no response, for this file or for any other. *)
Theorem unresolved_type_aborts (Version : string) (R : Registry)
    (req : CodeGeneratorRequest) (f : fileptr) (file : FileDescriptorProto)
    (service : ServiceDescriptorProto) (method : MethodDescriptorProto) :
  In f (genFiles (findProtoFilesToGenerate (newGenerator Version R req))) ->
  ProtoFile req !! f = Some file ->
  In service (file_Service file) ->
  In method (service_Method service) ->
  reg_MessageDefinition R (getString (method_InputType method)) = None \/
  reg_MessageDefinition R (getString (method_OutputType method)) = None ->
  (forall protoType : string,
      reg_MessageDefinition R protoType = None ->
      toRubyType (findProtoFilesToGenerate (newGenerator Version R req)) protoType
      = Panic ("could not find message for " +:+ protoType)) /\
  (exists msg, Generate (newGenerator Version R req) = Panic msg) /\
  (forall resp, Generate (newGenerator Version R req) <> Ok resp).
Proof.
  intros Hf Hfile Hservice Hmethod Hnone.
  assert (exists msg, Generate (newGenerator Version R req) = Panic msg) as [msg Hmsg].
  { unfold Generate. cbv zeta.
    apply (generateFiles_Panic _ _ f Hf).
    by apply (generateFile_unresolved _ f file service method). }
  split; [|split; [eauto | congruence]].
  intros protoType Hnone'. unfold toRubyType.
  change (reg (findProtoFilesToGenerate (newGenerator Version R req))) with R.
  by rewrite Hnone'.
Qed.
End GenerateFiles.

Lemma unresolved_type_aborts_witness :
  exists msg, @Generate latin1Tables
                (newGenerator "v1.0.0" Sample.registry Sample.requestBroken)
              = Panic msg.
Proof.
  apply (@unresolved_type_aborts latin1Tables "v1.0.0" Sample.registry
           Sample.requestBroken 2 Sample.broken
           (hd Sample.greeter (file_Service Sample.broken))
           {| method_Name := Some "Call";
              method_InputType := Some ".hello.world.HelloRequest";
              method_OutputType := Some ".missing.Type" |}).
  - right. left. reflexivity.
  - reflexivity.
  - left. reflexivity.
  - left. reflexivity.
  - right. reflexivity.
Defined.

(** ** Examples *)

Section Examples.
Existing Instance latin1Tables.

Example snakeCase_SayHello : snakeCase "SayHello" = "say_hello".
Proof. vm_compute. reflexivity. Qed.

Example snakeCase_kelvin :
  snakeCase (String (Zbyte 0xE2) (String (Zbyte 0x84) (String (Zbyte 0xAA) "")))
  = "k".
Proof. vm_compute. reflexivity. Qed.

Example camelCase_my_field_name_2 :
  camelCase "_my_field_name_2" = "XMyFieldName2".
Proof. vm_compute. reflexivity. Qed.

Example splitRubyConstants_pkg :
  splitRubyConstants "my.cool.package" = ["My"; "Cool"; "Package"].
Proof. vm_compute. reflexivity. Qed.

Example Split_ruby_package :
  strings.Split "Foo::BarBaz:::Q" "::" = ["Foo"; "BarBaz"; ":Q"].
Proof. vm_compute. reflexivity. Qed.
End Examples.

(** * Further properties of the code *)

(** ** [camelCase] *)

Lemma not_lower_upcase (c : ascii) :
  isASCIILower (if isASCIILower c then byte_xor c " " else c) = false.
Proof. byte_cases c. Qed.

(** A camel-cased name can serve as a Ruby constant: [camelCase] of a
    non-empty string is not empty and does not begin with an ASCII lower-case
    letter (lines 290-294 and 307-310). *)
Theorem camelCase_starts_capital (s : string) :
  s <> EmptyString ->
  exists (c : ascii) (rest : string),
    camelCase s = String c rest /\ isASCIILower c = false.
Proof.
  destruct s as [|c s]; [done|]. intros _. unfold camelCase.
  destruct (Ascii.eqb c "_") eqn:Hsep.
  - by exists "X"%char, (camelLoop false s).
  - cbn [camelLoop andb]. rewrite Hsep. cbn [andb].
    eexists _, _. split; [reflexivity|]. apply not_lower_upcase.
Qed.

Lemma camelCase_starts_capital_witness :
  exists (c : ascii) (rest : string),
    camelCase "say_hello" = String c rest /\ isASCIILower c = false.
Proof. apply (camelCase_starts_capital "say_hello"). discriminate. Defined.

Lemma length_camelLoop (accept : bool) (s : string) :
  String.length (camelLoop accept s) <= String.length s.
Proof.
  revert accept. induction s as [|c s IH]; intros accept; [done|].
  cbn [camelLoop].
  destruct (accept && (isASCIILower c || isASCIIDigit c)).
  { cbn [String.length]. specialize (IH true). lia. }
  destruct (Ascii.eqb c "_" && nextLowerOrDigit s).
  { cbn [String.length]. specialize (IH false). lia. }
  cbn [String.length]. specialize (IH true). lia.
Qed.

(** [camelCase] never lengthens a name: every byte of the input gives at
    most one byte of the output. *)
Theorem camelCase_length (s : string) :
  String.length (camelCase s) <= String.length s.
Proof.
  destruct s as [|c s]; [done|]. unfold camelCase.
  destruct (Ascii.eqb c "_").
  - cbn [String.length]. pose proof (length_camelLoop false s). lia.
  - apply length_camelLoop.
Qed.

Lemma hasSeparatorLower_camelLoop (s : string) (accept : bool) :
  hasSeparatorLower (camelLoop accept s) = false /\
  (startsWithLower (camelLoop accept s) = true ->
   accept = true /\ startsWithLower s = true).
Proof.
  revert accept. induction s as [|c s IH]; intros accept; [by split|].
  cbn [camelLoop].
  destruct (accept && (isASCIILower c || isASCIIDigit c)) eqn:Hacc.
  { apply andb_true_iff in Hacc as [-> Hld].
    destruct (IH true) as [IH1 IH2]. cbn [hasSeparatorLower startsWithLower].
    split; [|done]. rewrite IH1, orb_false_r.
    assert (isSeparator c = false) as ->; [|done].
    revert Hld. clear. byte_cases c. }
  destruct (Ascii.eqb c "_" && nextLowerOrDigit s) eqn:Hskip.
  { destruct (IH false) as [IH1 IH2]. split; [exact IH1|].
    intros Hl. by destruct (IH2 Hl). }
  destruct (IH true) as [IH1 IH2].
  cbn [hasSeparatorLower startsWithLower]. rewrite IH1, orb_false_r. split.
  - destruct (isASCIILower c) eqn:Hl.
    { assert (isSeparator (byte_xor c " ") = false) as ->; [|done].
      revert Hl. clear. byte_cases c. }
    destruct (isSeparator c) eqn:Hsep; [|done]. cbn [andb].
    destruct (startsWithLower (camelLoop true s)) eqn:Hnext; [|done].
    destruct (IH2 eq_refl) as [_ Hs].
    unfold isSeparator in Hsep. rewrite Hsep in Hskip. cbn [andb] in Hskip.
    destruct s as [|d s]; [done|]. cbn in Hs, Hskip. by rewrite Hs in Hskip.
  - intros Hl. by rewrite not_lower_upcase in Hl.
Qed.

(** The invariant of [camelCase] (line 295): a lower-case letter after a word
    boundary is converted, so the output never has a separator immediately
    followed by an ASCII lower-case letter. *)
Theorem camelCase_no_separator_lower (s : string) :
  hasSeparatorLower (camelCase s) = false.
Proof.
  destruct s as [|c s]; [done|]. unfold camelCase.
  destruct (Ascii.eqb c "_").
  - cbn [hasSeparatorLower]. by destruct (hasSeparatorLower_camelLoop s false) as [-> _].
  - by destruct (hasSeparatorLower_camelLoop (String c s) false) as [-> _].
Qed.

(** ** [snakeCase] followed by [camelCase] *)

Ltac byte_cases_all c :=
  destruct c as [[] [] [] [] [] [] [] []];
  let Hc := fresh "Hc" in
  intros Hc;
  first [ vm_compute in Hc; discriminate Hc
        | vm_compute; repeat split; reflexivity ].

Lemma upper_lower_is_lower (c : ascii) :
  isASCIIUpper c = true ->
  isASCIILower (asciiToLower c) = true /\
  byte_xor (asciiToLower c) " " = c /\
  Ascii.eqb (asciiToLower c) "_" = false.
Proof. byte_cases_all c. Qed.

Lemma alnum_cases (c : ascii) :
  isAlnum c = true ->
  isASCIIUpper c = true \/
  (isASCIIUpper c = false /\ (isASCIILower c || isASCIIDigit c) = true
   /\ Ascii.eqb c "_" = false).
Proof.
  destruct c as [[] [] [] [] [] [] [] []]; intros Hc;
    first [ vm_compute in Hc; discriminate Hc
          | left; reflexivity
          | right; repeat split; reflexivity ].
Qed.

Lemma alnum_ascii (c : ascii) : isAlnum c = true -> isASCII c = true.
Proof. byte_cases c. Qed.

Lemma camelLoop_snakeTail (s : string) :
  allBytes isAlnum s = true -> camelLoop true (snakeTail s) = s.
Proof.
  induction s as [|c s IH]; [done|]. cbn [allBytes snakeTail].
  intros [Hc Hs]%andb_true_iff.
  destruct (alnum_cases c Hc) as [Hup|(Hup & Hld & Hsep)]; rewrite Hup.
  - destruct (upper_lower_is_lower c Hup) as (Hl & Hx & Hsep).
    cbn [camelLoop nextLowerOrDigit andb]. rewrite Hl. cbn [orb andb].
    change (isASCIILower "_" || isASCIIDigit "_") with false. cbn [andb].
    change (Ascii.eqb "_" "_") with true. cbn [andb].
    rewrite Hsep. cbn [andb]. by rewrite Hx, IH.
  - rewrite asciiToLower_not_upper by done.
    cbn [camelLoop andb]. rewrite Hld. by rewrite IH.
Qed.

Section CamelOfSnake.
Context `{UnicodeTables}.

(** The dispatch key determines the method name: on a name of ASCII letters
    and digits that does not begin with a lower-case letter (a CamelCase
    method name), [camelCase] undoes [snakeCase]. *)
Theorem camelCase_snakeCase (s : string) :
  allBytes isAlnum s = true ->
  startsWithLower s = false ->
  camelCase (snakeCase s) = s.
Proof.
  intros Hs Hstart.
  rewrite snakeCase_ascii by (revert Hs; apply allBytes_impl, alnum_ascii).
  destruct s as [|c s]; [done|].
  cbn [allBytes startsWithLower] in Hs, Hstart.
  apply andb_true_iff in Hs as [Hc Hs].
  cbn [snakeAscii]. unfold camelCase.
  destruct (alnum_cases c Hc) as [Hup|(Hup & Hld & Hsep)].
  - destruct (upper_lower_is_lower c Hup) as (Hl & Hx & Hsep).
    rewrite Hsep. cbn [camelLoop andb]. rewrite Hsep. cbn [andb].
    by rewrite Hl, Hx, camelLoop_snakeTail.
  - rewrite asciiToLower_not_upper by done.
    rewrite Hsep. cbn [camelLoop andb]. rewrite Hsep. cbn [andb].
    by rewrite Hstart, camelLoop_snakeTail.
Qed.

Lemma snakeTail_no_upper (s : string) :
  allBytes isASCII s = true ->
  allBytes isASCII (snakeTail s) = true /\
  allBytes (fun c => negb (isASCIIUpper c)) (snakeTail s) = true.
Proof.
  induction s as [|c s IH]; [done|]. cbn [allBytes snakeTail].
  intros [Hc Hs]%andb_true_iff. destruct (IH Hs) as [IH1 IH2].
  assert (isASCII (asciiToLower c) = true /\
          negb (isASCIIUpper (asciiToLower c)) = true) as [Ha Hn].
  { revert Hc. clear. byte_cases_if c. }
  destruct (isASCIIUpper c); cbn [allBytes]; rewrite Ha, Hn, IH1, IH2; by split.
Qed.

Lemma snakeTail_fixed (s : string) :
  allBytes (fun c => negb (isASCIIUpper c)) s = true -> snakeTail s = s.
Proof.
  induction s as [|c s IH]; [done|]. cbn [allBytes snakeTail].
  intros [Hc%negb_true_iff Hs]%andb_true_iff.
  by rewrite Hc, asciiToLower_not_upper, IH.
Qed.

(** On ASCII input the result of [snakeCase] has no upper-case letter left,
    and [snakeCase] does not change it again. *)
Theorem snakeCase_idempotent (s : string) :
  allBytes isASCII s = true ->
  allBytes (fun c => negb (isASCIIUpper c)) (snakeCase s) = true /\
  snakeCase (snakeCase s) = snakeCase s.
Proof.
  intros Hs. rewrite !snakeCase_ascii by done.
  destruct s as [|c s]; [done|].
  cbn [allBytes] in Hs. apply andb_true_iff in Hs as [Hc Hs].
  destruct (snakeTail_no_upper s Hs) as [Ha Hn].
  assert (isASCII (asciiToLower c) = true /\
          negb (isASCIIUpper (asciiToLower c)) = true) as [Hac Hnc].
  { revert Hc. clear. byte_cases_if c. }
  cbn [snakeAscii allBytes]. rewrite Hnc, Hn. split; [done|].
  rewrite snakeCase_ascii by (cbn [allBytes]; by rewrite Hac, Ha).
  cbn [snakeAscii]. apply negb_true_iff in Hnc.
  by rewrite asciiToLower_not_upper, snakeTail_fixed.
Qed.
End CamelOfSnake.

Lemma camelCase_snakeCase_witness :
  camelCase (@snakeCase latin1Tables "SayHello2U") = "SayHello2U".
Proof. apply (@camelCase_snakeCase latin1Tables "SayHello2U"); reflexivity. Defined.

Lemma snakeCase_idempotent_witness :
  @snakeCase latin1Tables (@snakeCase latin1Tables "GetHTTPStatus")
  = @snakeCase latin1Tables "GetHTTPStatus".
Proof. apply (@snakeCase_idempotent latin1Tables "GetHTTPStatus"). reflexivity. Defined.

(** ** [toRubyType] *)

Lemma Join_cons (e : string) (rest : list string) (sep : string) :
  rest <> [] -> strings.Join (e :: rest) sep = e +:+ sep +:+ strings.Join rest sep.
Proof. by destruct rest. Qed.

Lemma typeChain_loop (names : list MessageDefinition) (own acc : string) :
  fold_left
    (fun name parent =>
       name +:+ (camelCase (getString (message_Name (Descriptor parent))) +:+ "::"))
    names acc +:+ camelCase own
  = acc +:+ strings.Join
              (map camelCase
                 (map (fun d => getString (message_Name (Descriptor d))) names
                  ++ [own])) "::".
Proof.
  revert acc. induction names as [|p names IH]; intros acc; [reflexivity|].
  cbn [fold_left map app]. rewrite IH, Join_cons.
  - by rewrite !sapp_assoc.
  - destruct names; discriminate.
Qed.

(** The loop of lines 240-244 joins the camel-cased names of the ancestors,
    outermost first, and the camel-cased name of the definition with [::]. *)
Theorem typeChain_join (R : Registry) (def : MessageDefinition) :
  typeChain R def = strings.Join (map camelCase (qualifiedNames R def)) "::".
Proof. unfold typeChain, qualifiedNames. apply (typeChain_loop _ _ EmptyString). Qed.

Lemma recordPackage_loop_above (gf : list fileptr) (files : list FileDescriptorProto)
    (i : fileptr) (m : gmap fileptr string) (p : fileptr) :
  i + length files <= p ->
  fold_left (recordPackage gf) (rangeFiles i files) m !! p = m !! p.
Proof.
  revert i m. induction files as [|f files IH]; intros i m Hp; [done|].
  cbn [rangeFiles fold_left]. cbn [length] in Hp. rewrite IH by lia.
  unfold recordPackage. cbn [fst snd].
  destruct (fileDescSliceContains gf i); apply lookup_insert_ne; lia.
Qed.

(** A definition whose file is not a file of the request has no recorded
    package: the map lookup of line 236 reads the zero value and the type
    resolves without a prefix. *)
Theorem toRubyType_foreign_file (Version : string) (R : Registry)
    (req : CodeGeneratorRequest) (protoType : string) (def : MessageDefinition) :
  reg_MessageDefinition R protoType = Some def ->
  length (ProtoFile req) <= File def ->
  fileToGoPackageName (findProtoFilesToGenerate (newGenerator Version R req))
    !! File def = None /\
  toRubyType (findProtoFilesToGenerate (newGenerator Version R req)) protoType
  = Ok (typeChain R def).
Proof.
  intros Hdef Hfile.
  assert (fileToGoPackageName (findProtoFilesToGenerate (newGenerator Version R req))
            !! File def = None) as Hnone.
  { cbn [findProtoFilesToGenerate fileToGoPackageName].
    rewrite recordPackage_loop_above by (cbn; lia). apply lookup_empty. }
  split; [exact Hnone|].
  rewrite (toRubyType_registered _ _ def) by exact Hdef.
  unfold packageOf. by rewrite Hnone.
Qed.

Lemma toRubyType_foreign_file_witness :
  toRubyType
    (findProtoFilesToGenerate (newGenerator "v1.0.0" Sample.registry requestAlone))
    ".foo.bar.Outer.reply"
  = Ok "Outer::Reply".
Proof.
  apply (proj2 (toRubyType_foreign_file "v1.0.0" Sample.registry requestAlone
                  ".foo.bar.Outer.reply" Sample.reply eq_refl (le_n 1))).
Defined.

(** ** [findProtoFilesToGenerate] and [fileDescSliceContains] *)

(** [fileDescSliceContains] answers whether the pointer is in the slice. *)
Theorem fileDescSliceContains_member (slice : list fileptr) (f : fileptr) :
  fileDescSliceContains slice f = true <-> In f slice.
Proof. apply fileDescSliceContains_In. Qed.

(** Every file of the request, whatever its role, gets an entry in
    [fileToGoPackageName], and nothing else does. *)
Theorem fileToGoPackageName_domain (Version : string) (R : Registry)
    (req : CodeGeneratorRequest) (p : fileptr) :
  is_Some (fileToGoPackageName
             (findProtoFilesToGenerate (newGenerator Version R req)) !! p)
  <-> p < length (ProtoFile req).
Proof.
  split.
  - intros Hsome. destruct (Nat.lt_ge_cases p (length (ProtoFile req))) as [|Hge];
      [done|].
    cbn [findProtoFilesToGenerate fileToGoPackageName] in Hsome.
    rewrite recordPackage_loop_above in Hsome by (cbn; lia).
    unfold newGenerator in Hsome. cbn [fileToGoPackageName] in Hsome.
    rewrite lookup_empty in Hsome. by destruct Hsome.
  - intros Hp. apply lookup_lt_is_Some in Hp as [file Hfile].
    rewrite (package_recorded _ _ _ p file Hfile). eauto.
Qed.

(** [findProtoFilesToGenerate] appends to [genFiles] and never resets it: on a
    generator that has selected files already, the selection is added once
    more. *)
Theorem findProtoFilesToGenerate_appends (g : generator) :
  genFiles (findProtoFilesToGenerate g)
  = genFiles g
    ++ flat_map (fun name => filesNamed name (rangeFiles 0 (ProtoFile (genReq g))))
                (FileToGenerate (genReq g)) /\
  genFiles (findProtoFilesToGenerate (findProtoFilesToGenerate g))
  = genFiles g
    ++ flat_map (fun name => filesNamed name (rangeFiles 0 (ProtoFile (genReq g))))
                (FileToGenerate (genReq g))
    ++ flat_map (fun name => filesNamed name (rangeFiles 0 (ProtoFile (genReq g))))
                (FileToGenerate (genReq g)).
Proof.
  assert (forall g0, genFiles (findProtoFilesToGenerate g0)
                     = genFiles g0
                       ++ flat_map
                            (fun name =>
                               filesNamed name (rangeFiles 0 (ProtoFile (genReq g0))))
                            (FileToGenerate (genReq g0))) as Hstep.
  { intros g0. cbn [findProtoFilesToGenerate genFiles]. apply genFiles_loop. }
  split; [apply Hstep|].
  rewrite (Hstep (findProtoFilesToGenerate g)), (Hstep g).
  cbn [findProtoFilesToGenerate genReq]. by rewrite <- app_assoc.
Qed.

(** ** [splitRubyConstants] *)

Lemma length_splitFrom_dot (s cur : string) :
  length (strings.splitFrom "." 0 cur s) = 1 + countByte "." s.
Proof.
  revert cur. induction s as [|c s IH]; intros cur; [reflexivity|].
  cbn [strings.splitFrom strings.HasPrefix countByte].
  rewrite HasPrefix_empty, andb_true_r.
  destruct (Ascii.eqb c "."); cbn [length String.length Nat.sub]; rewrite IH; lia.
Qed.

(** An empty package has no module; any other package has one constant per
    dot-separated segment, the camel-cased segment. *)
Theorem splitRubyConstants_segments (pkg : string) :
  splitRubyConstants EmptyString = [] /\
  (pkg <> EmptyString ->
   splitRubyConstants pkg = map camelCase (strings.Split pkg ".") /\
   length (splitRubyConstants pkg) = 1 + countByte "." pkg).
Proof.
  split; [reflexivity|]. intros Hpkg%String.eqb_neq.
  unfold splitRubyConstants. rewrite Hpkg. split; [reflexivity|].
  rewrite length_map. apply length_splitFrom_dot.
Qed.

Lemma splitRubyConstants_segments_witness :
  splitRubyConstants "google.protobuf" = ["Google"; "Protobuf"] /\
  length (splitRubyConstants "google.protobuf") = 1 + countByte "." "google.protobuf".
Proof.
  split; [reflexivity|].
  apply (proj2 (splitRubyConstants_segments "google.protobuf")). discriminate.
Defined.

(** ** [Generate]: when it returns *)

Lemma collect_Ok {A} (f : A -> result (list string)) (xs : list A) :
  (forall x, In x xs -> exists ls, f x = Ok ls) ->
  exists lines, collect f xs = Ok lines.
Proof.
  induction xs as [|x xs IH]; intros Hf; cbn [collect]; [eauto|].
  destruct (Hf x (or_introl eq_refl)) as [ls ->].
  destruct IH as [lines ->]; [|eauto]. intros y Hy. apply Hf. by right.
Qed.

Lemma collectIndexed_Ok {A} (f : Z -> A -> result (list string)) (xs : list A)
    (i : Z) :
  (forall j x, In x xs -> exists ls, f j x = Ok ls) ->
  exists lines, collectIndexed i f xs = Ok lines.
Proof.
  revert i. induction xs as [|x xs IH]; intros i Hf; cbn [collectIndexed]; [eauto|].
  destruct (Hf i x (or_introl eq_refl)) as [ls ->].
  destruct (IH (i + 1)%Z) as [lines ->]; [|eauto]. intros j y Hy. apply Hf. by right.
Qed.

Section GenerateReturns.
Context `{UnicodeTables}.

Lemma methodLines_resolved (g : generator) (indent : Z)
    (method : MethodDescriptorProto) :
  reg_MessageDefinition (reg g) (getString (method_InputType method)) <> None ->
  reg_MessageDefinition (reg g) (getString (method_OutputType method)) <> None ->
  exists ls, methodLines g indent method = Ok ls.
Proof.
  intros Hin Hout. unfold methodLines, toRubyType.
  destruct (reg_MessageDefinition (reg g) (getString (method_InputType method)));
    [|done].
  destruct (reg_MessageDefinition (reg g) (getString (method_OutputType method)));
    [eauto | done].
Qed.

Lemma generateFile_resolved (g : generator) (resp : CodeGeneratorResponse)
    (f : fileptr) (file : FileDescriptorProto) :
  ProtoFile (genReq g) !! f = Some file ->
  file_Name file <> None ->
  fileResolves (reg g) file ->
  exists respFile,
    generateFile g resp f = Ok {| resp_File := resp_File resp ++ [respFile] |}.
Proof.
  intros Hfile Hname Hres. unfold generateFile, generateRubyCode, filePath.
  rewrite Hfile. destruct (file_Name file) as [path|]; [|done].
  rewrite emitRubyCode_run.
  assert (exists body, servicesLines g file = Ok body) as [body ->]; [|eauto].
  apply collectIndexed_Ok. intros j service Hservice. unfold serviceLines.
  destruct (collect_Ok (methodLines g (Z.of_nat (length (modulesOf file))))
              (service_Method service)) as [entries ->]; [|eauto].
  intros method Hmethod. destruct (Hres service method Hservice Hmethod).
  by apply methodLines_resolved.
Qed.

Lemma generateFiles_resolved (g : generator) (fs : list fileptr)
    (resp : CodeGeneratorResponse) :
  (forall f, In f fs ->
     exists file, ProtoFile (genReq g) !! f = Some file /\
                  file_Name file <> None /\ fileResolves (reg g) file) ->
  exists resp',
    generateFiles g resp fs = Ok resp' /\
    length (resp_File resp') = length (resp_File resp) + length fs.
Proof.
  revert resp. induction fs as [|f fs IH]; intros resp Hfs; cbn [generateFiles].
  - exists resp. split; [done | cbn; lia].
  - destruct (Hfs f (or_introl eq_refl)) as (file & Hfile & Hname & Hres).
    destruct (generateFile_resolved g resp f file Hfile Hname Hres) as [respFile ->].
    destruct (IH {| resp_File := resp_File resp ++ [respFile] |}) as (resp' & -> & Hlen).
    { intros f' Hf'. apply Hfs. by right. }
    exists resp'. split; [done|].
    rewrite Hlen. cbn [resp_File length]. rewrite length_app. cbn [length]. lia.
Qed.

(** [Generate] returns a response, with one file per selected file, whenever
    the files of the request have a name and every input and output type of
    the methods of the selected files is registered. *)
Theorem Generate_returns (Version : string) (R : Registry)
    (req : CodeGeneratorRequest) :
  (forall file, In file (ProtoFile req) -> file_Name file <> None) ->
  (forall f file,
      In f (genFiles (findProtoFilesToGenerate (newGenerator Version R req))) ->
      ProtoFile req !! f = Some file -> fileResolves R file) ->
  exists resp,
    Generate (newGenerator Version R req) = Ok resp /\
    length (resp_File resp)
    = length (genFiles (findProtoFilesToGenerate (newGenerator Version R req))).
Proof.
  intros Hnames Hres. unfold Generate. cbv zeta.
  destruct (generateFiles_resolved
              (findProtoFilesToGenerate (newGenerator Version R req))
              (genFiles (findProtoFilesToGenerate (newGenerator Version R req)))
              {| resp_File := [] |}) as (resp & Hresp & Hlen).
  - intros f Hf. pose proof Hf as (file & Hfile & _)%In_genFiles.
    exists file. split; [exact Hfile|]. split.
    + apply Hnames. apply list_elem_of_In. by eapply list_elem_of_lookup_2.
    + by apply (Hres f).
  - exists resp. split; [exact Hresp|]. rewrite Hlen. reflexivity.
Qed.

(** A requested name that no file of the request bears selects nothing and is
    not reported: when none of the requested names is the name of a file,
    [Generate] returns the empty response. *)
Theorem Generate_no_match (Version : string) (R : Registry)
    (req : CodeGeneratorRequest) :
  (forall file, In file (ProtoFile req) ->
                ~ In (getString (file_Name file)) (FileToGenerate req)) ->
  genFiles (findProtoFilesToGenerate (newGenerator Version R req)) = [] /\
  Generate (newGenerator Version R req) = Ok {| resp_File := [] |}.
Proof.
  intros Hno.
  assert (genFiles (findProtoFilesToGenerate (newGenerator Version R req)) = [])
    as Hnil.
  { destruct (genFiles _) as [|f fs] eqn:Hgen; [done|].
    assert (In f (genFiles (findProtoFilesToGenerate (newGenerator Version R req))))
      as (file & Hfile & Hname)%In_genFiles by (rewrite Hgen; by left).
    exfalso. apply (Hno file); [|exact Hname].
    apply list_elem_of_In. by eapply list_elem_of_lookup_2. }
  split; [exact Hnil|]. unfold Generate. cbv zeta. by rewrite Hnil.
Qed.
End GenerateReturns.

Lemma Generate_returns_witness :
  exists resp,
    @Generate latin1Tables (newGenerator "v1.0.0" Sample.registry Sample.request)
    = Ok resp /\
    length (resp_File resp) = 1.
Proof.
  apply (@Generate_returns latin1Tables "v1.0.0" Sample.registry Sample.request).
  - intros file [<-|[<-|[<-|[]]]]; discriminate.
  - intros f file [<-|[]] [= <-] service method [<-|[]] [<-|[]].
    split; discriminate.
Defined.

Lemma Generate_no_match_witness :
  @Generate latin1Tables
    (newGenerator "v1.0.0" Sample.registry
       {| FileToGenerate := ["absent.proto"]; ProtoFile := ProtoFile Sample.request |})
  = Ok {| resp_File := [] |}.
Proof.
  apply (@Generate_no_match latin1Tables "v1.0.0" Sample.registry
           {| FileToGenerate := ["absent.proto"];
              ProtoFile := ProtoFile Sample.request |}).
  intros file [<-|[<-|[<-|[]]]] [Hname|[]]; discriminate Hname.
Defined.

(** ** The companion file *)

Lemma allBytes_app (P : ascii -> bool) (s t : string) :
  allBytes P (s +:+ t) = allBytes P s && allBytes P t.
Proof.
  induction s as [|c s IH]; [reflexivity|].
  rewrite sapp_cons. cbn [allBytes]. by rewrite IH, andb_assoc.
Qed.

Lemma get_lt (s : string) (i : nat) :
  i < String.length s -> exists c, String.get i s = Some c.
Proof.
  revert i. induction s as [|c s IH]; intros i Hi; [cbn in Hi; lia|].
  destruct i as [|i]; [by exists c|]. cbn [String.get]. apply IH. cbn in Hi. lia.
Qed.

Lemma noSlash_drop (s : string) (n : nat) :
  (forall j c, n <= j -> String.get j s = Some c -> Ascii.eqb c "/" = false) ->
  noSlash (strings.drop n s) = true.
Proof.
  unfold noSlash. revert n. induction s as [|c s IH]; intros n Hn.
  - by destruct n.
  - destruct n as [|n]; cbn [strings.drop].
    + cbn [allBytes]. rewrite (Hn 0 c) by (lia || done). cbn [negb andb].
      apply (IH 0). intros j d Hj Hd. apply (Hn (S j) d); [lia | exact Hd].
    + apply IH. intros j d Hj Hd. apply (Hn (S j) d); [lia | exact Hd].
Qed.

Lemma lastElement_noSlash (path : string) (n : nat) :
  n <= String.length path ->
  (forall j c, n <= j -> String.get j path = Some c -> Ascii.eqb c "/" = false) ->
  noSlash (filepath.lastElement path n) = true.
Proof.
  induction n as [|n IH]; intros Hlen Hn; cbn [filepath.lastElement].
  - by apply (noSlash_drop path 0).
  - destruct (get_lt path n) as [c Hc]; [lia|]. rewrite Hc.
    destruct (Ascii.eqb c "/") eqn:Hslash.
    + by apply noSlash_drop.
    + apply IH; [lia|]. intros j d Hj Hd.
      destruct (Nat.eq_dec j n) as [->|Hne].
      * congruence.
      * apply (Hn j d); [lia | exact Hd].
Qed.

Lemma get_ge (s : string) (i : nat) :
  String.length s <= i -> String.get i s = None.
Proof.
  revert i. induction s as [|c s IH]; intros i Hi; [done|].
  destruct i as [|i]; [cbn in Hi; lia|]. cbn [String.get]. apply IH. cbn in Hi. lia.
Qed.

Lemma Base_noSlash (path : string) :
  filepath.Base path = "/" \/ noSlash (filepath.Base path) = true.
Proof.
  unfold filepath.Base. destruct (String.eqb path EmptyString); [by right|].
  set (stripped := filepath.stripSlashes path (String.length path)).
  destruct (String.eqb (filepath.lastElement stripped (String.length stripped))
                       EmptyString); [by left|].
  right. apply lastElement_noSlash; [lia|].
  intros j c Hj Hc. rewrite get_ge in Hc by lia. discriminate.
Qed.

Lemma noSlash_take (s : string) (i : nat) :
  noSlash s = true -> noSlash (strings.take i s) = true.
Proof.
  unfold noSlash. revert i. induction s as [|c s IH]; intros [|i]; try done.
  cbn [allBytes strings.take]. intros [Hc Hs]%andb_true_iff.
  by rewrite Hc, IH.
Qed.

Lemma noExtension_take (path : string) :
  exists i, noExtension path = strings.take i path.
Proof.
  unfold noExtension, filepath.Ext.
  destruct (extLoop_suffix path (String.length path)) as (i & Hi & ->).
  exists i. by apply TrimSuffix_drop.
Qed.

(** The companion file is required from the directory of the generated file:
    unless the path consists of slashes only, the name
    [noExtension(onlyBase(path)) + "_pb.rb"] of line 73 has no directory
    separator. *)
Theorem companion_in_same_directory (path : string) :
  onlyBase path = "/" \/
  noSlash (noExtension (onlyBase path) +:+ "_pb.rb") = true.
Proof.
  unfold onlyBase. destruct (Base_noSlash path) as [Hroot|Hbase]; [by left|].
  right. destruct (noExtension_take (filepath.Base path)) as [i ->].
  unfold noSlash. rewrite allBytes_app. apply andb_true_iff. split; [|reflexivity].
  by apply noSlash_take.
Qed.

(** ** Blank lines between services *)

Section BlankLines.
Context `{UnicodeTables}.



End BlankLines.


(** ** A file without a name *)

Section Nameless.
Context `{UnicodeTables}.

(** [findProtoFilesToGenerate] compares names through the nil-safe getter,
    [filePath] dereferences the field (line 177): a file whose name is not set
    is selected by the empty requested name, and [Generate] then panics on the
    nil field instead of returning a response. *)
Theorem Generate_nameless (Version : string) (R : Registry)
    (req : CodeGeneratorRequest) (f : fileptr) (file : FileDescriptorProto) :
  ProtoFile req !! f = Some file ->
  file_Name file = None ->
  In EmptyString (FileToGenerate req) ->
  In f (genFiles (findProtoFilesToGenerate (newGenerator Version R req))) /\
  exists msg, Generate (newGenerator Version R req) = Panic msg.
Proof.
  intros Hfile Hname Hreq.
  assert (In f (genFiles (findProtoFilesToGenerate (newGenerator Version R req))))
    as Hf.
  { apply In_genFiles. exists file. split; [exact Hfile|]. by rewrite Hname. }
  split; [exact Hf|]. unfold Generate. cbv zeta.
  apply (generateFiles_Panic _ _ f Hf). intros resp.
  unfold generateFile, filePath.
  change (ProtoFile (genReq (findProtoFilesToGenerate (newGenerator Version R req))))
    with (ProtoFile req).
  rewrite Hfile, Hname. eauto.
Qed.
End Nameless.

Lemma Generate_nameless_witness :
  exists msg,
    @Generate latin1Tables (newGenerator "v1.0.0" Sample.registry requestNameless)
    = Panic msg.
Proof.
  apply (@Generate_nameless latin1Tables "v1.0.0" Sample.registry requestNameless
           1 nameless); [reflexivity | reflexivity | by left].
Defined.

(** ** File names: extension and base name *)

Lemma allBytes_drop (P : ascii -> bool) (s : string) (n : nat) :
  (forall j c, n <= j -> String.get j s = Some c -> P c = true) ->
  allBytes P (strings.drop n s) = true.
Proof.
  revert n. induction s as [|c s IH]; intros n Hn.
  - by destruct n.
  - destruct n as [|n]; cbn [strings.drop].
    + cbn [allBytes]. rewrite (Hn 0 c) by (lia || done). cbn [andb].
      apply (IH 0). intros j d Hj Hd. apply (Hn (S j) d); [lia | exact Hd].
    + apply IH. intros j d Hj Hd. apply (Hn (S j) d); [lia | exact Hd].
Qed.

Lemma drop_get (s : string) (i : nat) (c : ascii) :
  String.get i s = Some c -> strings.drop i s = String c (strings.drop (S i) s).
Proof.
  revert i. induction s as [|d s IH]; intros i Hi; [by destruct i|].
  destruct i as [|i].
  - cbn in Hi. injection Hi as ->. reflexivity.
  - cbn [String.get] in Hi. cbn [strings.drop]. rewrite (IH i Hi).
    by destruct s.
Qed.

Lemma take_S_get (s : string) (i : nat) (c : ascii) :
  String.get i s = Some c ->
  strings.take (S i) s = strings.take i s +:+ String c EmptyString.
Proof.
  revert i. induction s as [|d s IH]; intros i Hi; [by destruct i|].
  destruct i as [|i].
  - cbn in Hi. injection Hi as ->. by destruct s.
  - cbn [String.get] in Hi. cbn [strings.take]. rewrite sapp_cons.
    f_equal. exact (IH i Hi).
Qed.

Lemma take_all (s : string) (n : nat) :
  String.length s <= n -> strings.take n s = s.
Proof.
  revert n. induction s as [|c s IH]; intros [|n] Hn; try reflexivity.
  - cbn in Hn. lia.
  - cbn [strings.take]. f_equal. apply IH. cbn in Hn. lia.
Qed.

Lemma length_take (s : string) (n : nat) :
  n <= String.length s -> String.length (strings.take n s) = n.
Proof.
  revert n. induction s as [|c s IH]; intros [|n] Hn; try reflexivity.
  - cbn in Hn. lia.
  - cbn [strings.take String.length]. f_equal. apply IH. cbn in Hn. lia.
Qed.

Lemma get_take (s : string) (n j : nat) :
  j < n -> String.get j (strings.take n s) = String.get j s.
Proof.
  revert n j. induction s as [|c s IH]; intros [|n] [|j] Hj; try reflexivity; try lia.
  cbn [strings.take String.get]. apply IH. lia.
Qed.

Lemma extLoop_spec (path : string) (n : nat) :
  n <= String.length path ->
  (forall j c, n <= j -> String.get j path = Some c -> notDotSlash c = true) ->
  (filepath.extLoop path n = EmptyString /\
   forall i, String.get i path = Some "."%char ->
             exists j, i < j /\ String.get j path = Some "/"%char)
  \/
  (exists i, i < String.length path /\
             String.get i path = Some "."%char /\
             filepath.extLoop path n = strings.drop i path /\
             allBytes notDotSlash (strings.drop (S i) path) = true).
Proof.
  induction n as [|n IH]; intros Hlen Hn; cbn [filepath.extLoop].
  - left. split; [reflexivity|]. intros i Hi.
    pose proof (Hn i _ (Nat.le_0_l i) Hi) as Hfalse. discriminate Hfalse.
  - destruct (get_lt path n) as [c Hc]; [lia|]. rewrite Hc.
    destruct (Ascii.eqb c "/") eqn:Hslash.
    + apply Ascii.eqb_eq in Hslash as ->. left. split; [reflexivity|].
      intros i Hi. destruct (Nat.lt_ge_cases i n) as [Hlt|Hge].
      * exists n. by split.
      * destruct (Nat.eq_dec i n) as [->|Hne]; [congruence|].
        assert (S n <= i) as Hle by lia.
        pose proof (Hn i _ Hle Hi) as Hfalse. discriminate Hfalse.
    + destruct (Ascii.eqb c ".") eqn:Hdot.
      * apply Ascii.eqb_eq in Hdot as ->. right. exists n.
        split; [lia|]. split; [exact Hc|]. split; [reflexivity|].
        by apply allBytes_drop.
      * apply IH; [lia|]. intros j d Hj Hd.
        destruct (Nat.eq_dec j n) as [->|Hne].
        -- assert (d = c) as -> by congruence. unfold notDotSlash.
           by rewrite Hdot, Hslash.
        -- apply (Hn j d); [lia | exact Hd].
Qed.

(** [noExtension] removes the extension, as the specification has it. *)
Lemma noExtension_spec (path : string) :
  withoutExtension path (noExtension path).
Proof.
  unfold withoutExtension, noExtension, filepath.Ext.
  destruct (extLoop_spec path (String.length path) (le_n _)) as
    [[Hext Hdots]|(i & Hi & Hget & Hext & Hrest)].
  { intros j c Hj Hc. rewrite get_ge in Hc by lia. discriminate. }
  - rewrite Hext. exists EmptyString. split; [|left; by split].
    rewrite sapp_nil_r. unfold strings.TrimSuffix, strings.HasSuffix.
    cbn [String.length]. rewrite Nat.sub_0_r, drop_all. cbn [andb Nat.leb String.eqb].
    by rewrite take_all.
  - rewrite Hext, TrimSuffix_drop by lia.
    exists (strings.drop i path). split; [by rewrite take_drop|].
    right. exists (strings.drop (S i) path). split; [by apply drop_get | exact Hrest].
Qed.

Lemma stripSlashes_spec (path : string) (n : nat) :
  n <= String.length path ->
  exists m, m <= n /\
            filepath.stripSlashes path n = strings.take m path /\
            (forall j, m <= j -> j < n -> String.get j path = Some "/"%char) /\
            (m = 0 \/ (0 < m /\ exists c, String.get (m - 1) path = Some c /\
                                          Ascii.eqb c "/" = false)).
Proof.
  induction n as [|n IH]; intros Hlen; cbn [filepath.stripSlashes].
  - exists 0. repeat split; [by destruct path | intros; lia | by left].
  - destruct (get_lt path n) as [c Hc]; [lia|]. rewrite Hc.
    destruct (Ascii.eqb c "/") eqn:Hslash.
    + apply Ascii.eqb_eq in Hslash as ->.
      destruct IH as (m & Hm & Hstrip & Hrange & Hlast); [lia|].
      exists m. split; [lia|]. split; [exact Hstrip|]. split; [|exact Hlast].
      intros j Hj Hjn. destruct (Nat.eq_dec j n) as [->|Hne]; [exact Hc|].
      apply Hrange; lia.
    + exists (S n). split; [lia|]. split; [reflexivity|]. split; [intros; lia|].
      right. split; [lia|]. exists c. split; [|exact Hslash].
      by replace (S n - 1) with n by lia.
Qed.

Lemma lastElement_spec (s : string) (n : nat) :
  n <= String.length s ->
  (forall j c, n <= j -> String.get j s = Some c -> Ascii.eqb c "/" = false) ->
  exists k, k <= n /\
            filepath.lastElement s n = strings.drop k s /\
            (k = 0 \/ (0 < k /\ String.get (k - 1) s = Some "/"%char)) /\
            (forall j c, k <= j -> String.get j s = Some c ->
                         Ascii.eqb c "/" = false).
Proof.
  induction n as [|n IH]; intros Hlen Hn; cbn [filepath.lastElement].
  - exists 0. split; [lia|]. split; [reflexivity|]. split; [by left | exact Hn].
  - destruct (get_lt s n) as [c Hc]; [lia|]. rewrite Hc.
    destruct (Ascii.eqb c "/") eqn:Hslash.
    + apply Ascii.eqb_eq in Hslash as ->.
      exists (S n). split; [lia|]. split; [reflexivity|]. split; [|exact Hn].
      right. split; [lia|]. by replace (S n - 1) with n by lia.
    + destruct IH as (k & Hk & Hlast & Hprev & Hafter); [lia| |].
      { intros j d Hj Hd. destruct (Nat.eq_dec j n) as [->|Hne]; [congruence|].
        apply (Hn j d); [lia | exact Hd]. }
      exists k. split; [lia|]. by split.
Qed.

(** [onlyBase] strips the directory, as the specification has it. *)
Lemma onlyBase_spec (path : string) : baseNameOf path (onlyBase path).
Proof.
  unfold baseNameOf, onlyBase, filepath.Base.
  destruct (String.eqb path EmptyString) eqn:Hempty.
  { left. split; [by apply String.eqb_eq | reflexivity]. }
  apply String.eqb_neq in Hempty. right.
  destruct (stripSlashes_spec path (String.length path) (le_n _))
    as (m & Hm & -> & Htrail & Hlast).
  assert (allBytes isSlash (strings.drop m path) = true) as Hslashes.
  { apply allBytes_drop. intros j c Hj Hc.
    destruct (Nat.lt_ge_cases j (String.length path)) as [Hlt|Hge].
    - rewrite (Htrail j Hj Hlt) in Hc. by injection Hc as <-.
    - rewrite get_ge in Hc by lia. discriminate. }
  set (st := strings.take m path).
  assert (String.length st = m) as Hst by (by apply length_take).
  destruct (lastElement_spec st (String.length st) (le_n _))
    as (k & Hk & -> & Hprev & Hnoslash).
  { intros j c Hj Hc. rewrite get_ge in Hc by lia. discriminate. }
  destruct Hlast as [->|(Hmpos & c & Hc & Hcslash)].
  - left. split; [exact Hempty|]. split; [exact Hslashes|].
    assert (st = EmptyString) as -> by (subst st; by destruct path).
    by destruct k.
  - assert (k < m) as Hkm.
    { destruct Hprev as [->|[Hkpos Hprev]]; [lia|].
      destruct (Nat.eq_dec k m) as [->|Hne]; [|lia].
      subst st. rewrite get_take, Hc in Hprev by lia.
      injection Hprev as ->. discriminate Hcslash. }
    assert (strings.drop k st <> EmptyString) as Hbase.
    { intros Hnil. pose proof (length_drop k st) as Hlen.
      rewrite Hnil in Hlen. cbn in Hlen. lia. }
    apply String.eqb_neq in Hbase as Heqb. rewrite Heqb. apply String.eqb_neq in Heqb.
    right. exists (strings.take k st), (strings.drop m path).
    split; [|split; [exact Hbase|split; [|split; [exact Hslashes|]]]].
    + rewrite <- sapp_assoc, (take_drop k st). unfold st.
      symmetry. apply take_drop.
    + unfold noSlash. apply allBytes_drop. intros j d Hj Hd.
      by rewrite (Hnoslash j d Hj Hd).
    + destruct Hprev as [->|[Hkpos Hprev]]; [left; by destruct st|].
      right. exists (strings.take (k - 1) st).
      replace k with (S (k - 1)) at 1 by lia. by apply take_S_get.
Qed.

Section OutputFiles.
Context `{UnicodeTables}.

(** C9: the response of [Generate] has one file per entry of [genFiles], in
    that order. Its name is the path of the input file with the extension
    removed and [_twirp.rb] appended; the third line of its text requires the
    companion whose name is the base name of the input file (the directory
    stripped) with the extension removed and [_pb.rb] appended. *)
Theorem output_file_names (Version : string) (R : Registry)
    (req : CodeGeneratorRequest) (resp : CodeGeneratorResponse) :
  Generate (newGenerator Version R req) = Ok resp ->
  Forall2
    (fun (f : fileptr) (respFile : CodeGeneratorResponse_File) =>
       exists (file : FileDescriptorProto) (path stem base baseStem : string)
              (rest : list string),
         ProtoFile req !! f = Some file /\
         file_Name file = Some path /\
         withoutExtension path stem /\
         resp_Name respFile = stem +:+ "_twirp.rb" /\
         baseNameOf path base /\
         withoutExtension base baseStem /\
         resp_Content respFile
         = Buffer_String
             ([ "# Code generated by protoc-gen-twirp_ruby " +:+ Version
                +:+ ", DO NOT EDIT.";
                "require 'twirp'";
                "require_relative '" +:+ (baseStem +:+ "_pb.rb") +:+ "'";
                EmptyString ] ++ rest))
    (genFiles (findProtoFilesToGenerate (newGenerator Version R req)))
    (resp_File resp).
Proof.
  unfold Generate. cbv zeta.
  intros (new & Hnew & Hall)%generateFiles_Ok.
  cbn [resp_File app] in Hnew. rewrite Hnew.
  eapply Forall2_impl; [exact Hall|].
  intros f respFile (file & path & rest & Hfile & Hpath & Hname & Hcontent).
  exists file, path, (noExtension path), (onlyBase path),
    (noExtension (onlyBase path)), rest.
  split; [exact Hfile|]. split; [exact Hpath|].
  split; [apply noExtension_spec|]. split; [exact Hname|].
  split; [apply onlyBase_spec|]. split; [apply noExtension_spec|]. exact Hcontent.
Qed.
End OutputFiles.

(** The two relations determine their result: a path has one stem and one
    base name. *)

Lemma get_app_l (s t : string) (i : nat) :
  i < String.length s -> String.get i (s +:+ t) = String.get i s.
Proof.
  revert i. induction s as [|c s IH]; intros i Hi; [cbn in Hi; lia|].
  rewrite sapp_cons. destruct i as [|i]; [reflexivity|].
  cbn [String.get]. apply IH. cbn in Hi. lia.
Qed.

Lemma get_app_r (s t : string) (i : nat) :
  String.get (String.length s + i) (s +:+ t) = String.get i t.
Proof.
  induction s as [|c s IH]; [reflexivity|].
  rewrite sapp_cons. cbn [String.length Nat.add String.get]. exact IH.
Qed.

Lemma allBytes_get (P : ascii -> bool) (s : string) (i : nat) (c : ascii) :
  allBytes P s = true -> String.get i s = Some c -> P c = true.
Proof.
  revert i. induction s as [|d s IH]; intros i Hs Hi; [by destruct i|].
  cbn [allBytes] in Hs. apply andb_true_iff in Hs as [Hd Hs].
  destruct i as [|i].
  - cbn in Hi. by injection Hi as <-.
  - cbn [String.get] in Hi. by apply (IH i).
Qed.

Lemma sapp_inv_length (s1 t1 s2 t2 : string) :
  s1 +:+ t1 = s2 +:+ t2 -> String.length s1 = String.length s2 ->
  s1 = s2 /\ t1 = t2.
Proof.
  revert s2. induction s1 as [|c s1 IH]; intros [|d s2] Heq Hlen;
    try (cbn in Hlen; lia).
  - by split.
  - rewrite !sapp_cons in Heq. injection Heq as -> Heq.
    cbn in Hlen. destruct (IH s2 Heq) as [-> ->]; [lia | by split].
Qed.

Lemma dotted_suffix (path stem e : string) :
  path = stem +:+ String "." e ->
  allBytes notDotSlash e = true ->
  String.get (String.length stem) path = Some "."%char /\
  forall j c, String.length stem < j -> String.get j path = Some c ->
              notDotSlash c = true.
Proof.
  intros -> He. split.
  - rewrite <- (Nat.add_0_r (String.length stem)). by rewrite get_app_r.
  - intros j c Hj Hc.
    replace j with (String.length stem + S (j - String.length stem - 1)) in Hc by lia.
    rewrite get_app_r in Hc. cbn [String.get] in Hc.
    exact (allBytes_get _ e _ c He Hc).
Qed.

Lemma withoutExtension_unique (path stem1 stem2 : string) :
  withoutExtension path stem1 -> withoutExtension path stem2 -> stem1 = stem2.
Proof.
  intros (e1 & Hp1 & H1) (e2 & Hp2 & H2).
  destruct H1 as [[-> Hd1]|(x1 & -> & Hx1)], H2 as [[-> Hd2]|(x2 & -> & Hx2)].
  - rewrite sapp_nil_r in Hp1, Hp2. congruence.
  - destruct (dotted_suffix path stem2 x2 Hp2 Hx2) as [Hdot Hafter].
    destruct (Hd1 _ Hdot) as (j & Hj & Hslash).
    pose proof (Hafter j _ Hj Hslash) as Hfalse. discriminate Hfalse.
  - destruct (dotted_suffix path stem1 x1 Hp1 Hx1) as [Hdot Hafter].
    destruct (Hd2 _ Hdot) as (j & Hj & Hslash).
    pose proof (Hafter j _ Hj Hslash) as Hfalse. discriminate Hfalse.
  - destruct (dotted_suffix path stem1 x1 Hp1 Hx1) as [Hdot1 Hafter1].
    destruct (dotted_suffix path stem2 x2 Hp2 Hx2) as [Hdot2 Hafter2].
    destruct (Nat.lt_trichotomy (String.length stem1) (String.length stem2))
      as [Hlt|[Heq|Hgt]].
    + pose proof (Hafter1 _ _ Hlt Hdot2) as Hfalse. discriminate Hfalse.
    + rewrite Hp1 in Hp2. by destruct (sapp_inv_length _ _ _ _ Hp2 Heq).
    + pose proof (Hafter2 _ _ Hgt Hdot1) as Hfalse. discriminate Hfalse.
Qed.

(** In [dir ++ base ++ trail] the bytes of [base] are no slashes and those of
    [trail] are. *)
Lemma base_positions (path dir base trail : string) :
  path = dir +:+ base +:+ trail ->
  noSlash base = true -> allBytes isSlash trail = true ->
  (forall j c, String.length dir <= j ->
               j < String.length dir + String.length base ->
               String.get j path = Some c -> isSlash c = false) /\
  (forall j c, String.length dir + String.length base <= j ->
               String.get j path = Some c -> isSlash c = true).
Proof.
  intros -> Hbase Htrail. split.
  - intros j c Hj Hjb Hc.
    replace j with (String.length dir + (j - String.length dir)) in Hc by lia.
    rewrite get_app_r, get_app_l in Hc by lia.
    pose proof (allBytes_get _ base _ c Hbase Hc) as Hn.
    by apply negb_true_iff in Hn.
  - intros j c Hj Hc.
    replace j with (String.length dir
                    + (String.length base
                       + (j - String.length dir - String.length base))) in Hc by lia.
    rewrite !get_app_r in Hc. exact (allBytes_get _ trail _ c Htrail Hc).
Qed.

Lemma dir_last_slash (path d rest : string) :
  path = (d +:+ "/") +:+ rest ->
  String.get (String.length (d +:+ "/") - 1) path = Some "/"%char.
Proof.
  intros ->. rewrite slength_app. cbn [String.length].
  replace (String.length d + 1 - 1) with (String.length d + 0) by lia.
  rewrite sapp_assoc. by rewrite get_app_r.
Qed.

Lemma baseNameOf_unique (path base1 base2 : string) :
  baseNameOf path base1 -> baseNameOf path base2 -> base1 = base2.
Proof.
  assert (forall dir base trail,
             path = dir +:+ base +:+ trail -> base <> EmptyString ->
             path <> EmptyString) as Hnonempty.
  { intros dir base trail -> Hbase Hnil. apply Hbase.
    assert (String.length (dir +:+ base +:+ trail) = 0) as Hlen by (by rewrite Hnil).
    rewrite !slength_app in Hlen. destruct base; [done | cbn in Hlen; lia]. }
  assert (forall dir base trail,
             path = dir +:+ base +:+ trail -> base <> EmptyString ->
             noSlash base = true -> allBytes isSlash path = true -> False)
    as Hnotslashes.
  { intros dir base trail -> Hbase Hns Hall.
    rewrite !allBytes_app in Hall.
    apply andb_true_iff in Hall as [_ [Hb _]%andb_true_iff].
    destruct base as [|c base]; [done|]. cbn [allBytes] in Hb, Hns.
    unfold noSlash in Hns. cbn [allBytes] in Hns.
    apply andb_true_iff in Hb as [Hc _]. apply andb_true_iff in Hns as [Hn _].
    unfold isSlash in Hc. by rewrite Hc in Hn. }
  intros [[Hp1 ->]|[(Hne1 & Hs1 & ->)|(d1 & t1 & Hp1 & Hb1 & Hn1 & Ht1 & Hd1)]]
         [[Hp2 ->]|[(Hne2 & Hs2 & ->)|(d2 & t2 & Hp2 & Hb2 & Hn2 & Ht2 & Hd2)]];
    try reflexivity; try congruence;
    try (exfalso; eapply Hnonempty; eassumption);
    try (exfalso; eapply Hnotslashes; eassumption).
  destruct (base_positions _ _ _ _ Hp1 Hn1 Ht1) as [Hin1 Hout1].
  destruct (base_positions _ _ _ _ Hp2 Hn2 Ht2) as [Hin2 Hout2].
  assert (0 < String.length base1) as Hl1 by (destruct base1; [done | cbn; lia]).
  assert (0 < String.length base2) as Hl2 by (destruct base2; [done | cbn; lia]).
  assert (String.length path
          = String.length d1 + String.length base1 + String.length t1) as Hlen1.
  { rewrite Hp1 at 1. rewrite !slength_app. lia. }
  assert (String.length path
          = String.length d2 + String.length base2 + String.length t2) as Hlen2.
  { rewrite Hp2 at 1. rewrite !slength_app. lia. }
  (* both base names end at the same position *)
  assert (String.length d1 + String.length base1
          = String.length d2 + String.length base2) as Hend.
  { destruct (Nat.lt_trichotomy (String.length d1 + String.length base1)
                (String.length d2 + String.length base2)) as [Hlt|[Heq|Hgt]];
      [|exact Heq|].
    - set (p := String.length d2 + String.length base2 - 1).
      destruct (get_lt path p) as [c Hc]; [lia|].
      assert (isSlash c = false) as Hno by (apply (Hin2 p c); [lia | lia | exact Hc]).
      assert (isSlash c = true) as Hyes by (apply (Hout1 p c); [lia | exact Hc]).
      congruence.
    - set (p := String.length d1 + String.length base1 - 1).
      destruct (get_lt path p) as [c Hc]; [lia|].
      assert (isSlash c = false) as Hno by (apply (Hin1 p c); [lia | lia | exact Hc]).
      assert (isSlash c = true) as Hyes by (apply (Hout2 p c); [lia | exact Hc]).
      congruence. }
  (* and begin at the same position *)
  assert (String.length d1 = String.length d2) as Hstart.
  { destruct (Nat.lt_trichotomy (String.length d1) (String.length d2))
      as [Hlt|[Heq|Hgt]]; [|exact Heq|].
    - destruct Hd2 as [->|[d ->]]; [cbn in Hlt; lia|].
      pose proof (dir_last_slash path d _ Hp2) as Hslash.
      assert (isSlash "/" = false) as Hno; [|discriminate Hno].
      apply (Hin1 (String.length (d +:+ "/") - 1) "/"%char); [| |exact Hslash].
      + rewrite slength_app in *. cbn [String.length] in *. lia.
      + rewrite slength_app in *. cbn [String.length] in *. lia.
    - destruct Hd1 as [->|[d ->]]; [cbn in Hgt; lia|].
      pose proof (dir_last_slash path d _ Hp1) as Hslash.
      assert (isSlash "/" = false) as Hno; [|discriminate Hno].
      apply (Hin2 (String.length (d +:+ "/") - 1) "/"%char); [| |exact Hslash].
      + rewrite slength_app in *. cbn [String.length] in *. lia.
      + rewrite slength_app in *. cbn [String.length] in *. lia. }
  rewrite Hp1 in Hp2.
  destruct (sapp_inv_length _ _ _ _ Hp2 Hstart) as [_ Hrest].
  by destruct (sapp_inv_length _ _ _ _ Hrest ltac:(lia)).
Qed.

Lemma output_file_names_witness :
  withoutExtension "hello_world/service.proto" "hello_world/service" /\
  baseNameOf "hello_world/service.proto" "service.proto" /\
  withoutExtension "service.proto" "service" /\
  map resp_Name (resp_File Sample.helloResponse) = ["hello_world/service_twirp.rb"] /\
  map (fun respFile => nth 2 (textLines (resp_Content respFile)) EmptyString)
      (resp_File Sample.helloResponse)
  = ["require_relative 'service_pb.rb'"].
Proof.
  pose proof (@output_file_names latin1Tables "v1.0.0" Sample.registry
                Sample.request Sample.helloResponse eq_refl) as Hall.
  assert (withoutExtension "hello_world/service.proto" "hello_world/service") as Hstem.
  { exists ".proto". split; [reflexivity|]. right. by exists "proto". }
  assert (baseNameOf "hello_world/service.proto" "service.proto") as Hbase.
  { right. right. exists "hello_world/", EmptyString.
    repeat split; try reflexivity; try discriminate. right. by exists "hello_world". }
  assert (withoutExtension "service.proto" "service") as Hbstem.
  { exists ".proto". split; [reflexivity|]. right. by exists "proto". }
  split; [exact Hstem|]. split; [exact Hbase|]. split; [exact Hbstem|].
  change (genFiles (findProtoFilesToGenerate
                      (newGenerator "v1.0.0" Sample.registry Sample.request)))
    with [0] in Hall.
  destruct (resp_File Sample.helloResponse) as [|respFile rest] eqn:Hresp;
    [inversion Hall|].
  apply Forall2_cons_1 in Hall as [Hfile Hrest]. inversion Hrest; subst.
  destruct Hfile as (file & path & stem & base & baseStem & lines
                     & Hfile & Hpath & Hs & Hname & Hb & Hbs & Hcontent).
  injection Hfile as <-. injection Hpath as <-.
  rewrite (withoutExtension_unique _ _ _ Hs Hstem) in Hname.
  rewrite (baseNameOf_unique _ _ _ Hb Hbase) in Hbs.
  rewrite (withoutExtension_unique _ _ _ Hbs Hbstem) in Hcontent.
  cbn [map]. rewrite Hname. split; [reflexivity|].
  rewrite Hcontent.
  cbn [app Buffer_String fold_right].
  unfold textLines.
  rewrite !textLinesFrom_line by reflexivity. reflexivity.
Defined.
